(** * Nutri B2C backend: problem-details error middleware, search ordering,
      idempotency gate and pagination

    [server/middleware/errorHandler.ts] is embedded from its source: the
    values the handlers inspect are JavaScript values, the handlers
    themselves are programs in a small state-and-exception monad over the
    Express response, the console and the [next] continuation.

    The Filter Compiler's validator, the Tie-Break Sequencer and the
    Idempotency Gate have no source file here; their definitions follow
    the design document and say so.

    Definitions come first, the properties after them. *)

From stdpp Require Import base numbers strings list option pretty gmap sorting.

Local Open Scope Z_scope.
Local Open Scope string_scope.

(** ** JavaScript values *)

Module Js.

#[local] Set Warnings "-register-all".

(** What [instanceof] can tell apart in this program. *)
Inductive Class := ClsObject | ClsError | ClsAppError.

(** Plain data values.  Numbers are integers (HTTP status codes and the
    like) plus [NaN], which is enough for truthiness; functions, symbols
    and accessor properties are outside the model.  An object is its class
    and the finite map of the properties a read [o.k] resolves. *)
Inductive Value :=
| Undefined
| Null
| Bool (b : bool)
| Num (n : Z)
| NaN
| Str (s : string)
| Arr (xs : list Value)
| Obj (cls : Class) (props : gmap string Value).

Inductive Exception :=
| TypeError (msg : string)
| RangeError (msg : string)
| HeadersSentError (msg : string).

Inductive Completion (A : Type) :=
| Normal (a : A)
| Throw (e : Exception).
Arguments Normal {A} a.
Arguments Throw {A} e.

#[export] Instance Completion_ret : MRet Completion := λ A a, Normal a.
#[export] Instance Completion_bind : MBind Completion := λ A B f c,
  match c with
  | Normal a => f a
  | Throw e => Throw e
  end.
#[export] Instance Completion_fmap : FMap Completion := λ A B f c,
  match c with
  | Normal a => Normal (f a)
  | Throw e => Throw e
  end.

(** [v.k] for a data property [k].  Reading a property of [undefined] or
    [null] throws; primitives and arrays carry none of the names this
    program reads. *)
Definition get (v : Value) (k : string) : Completion Value :=
  match v with
  | Undefined => Throw (TypeError "Cannot read properties of undefined")
  | Null => Throw (TypeError "Cannot read properties of null")
  | Obj _ props => Normal (default Undefined (props !! k))
  | _ => Normal Undefined
  end.

(** [ToBoolean]. *)
Definition truthy (v : Value) : bool :=
  match v with
  | Undefined | Null | NaN => false
  | Bool b => b
  | Num n => negb (Z.eqb n 0)
  | Str s => negb (String.eqb s "")
  | Arr _ | Obj _ _ => true
  end.

(** [v === 'lit'] against a string literal. *)
Definition strictEqStr (v : Value) (lit : string) : bool :=
  match v with
  | Str s => String.eqb s lit
  | _ => false
  end.

(** [v instanceof AppError]. *)
Definition instanceofAppError (v : Value) : bool :=
  match v with
  | Obj ClsAppError _ => true
  | _ => false
  end.

(** Index-keyed properties ["0"], ["1"], ... of an array or a string. *)
Definition indexed (xs : list Value) : gmap string Value :=
  list_to_map (zip (pretty <$> seq 0 (length xs)) xs).

Fixpoint chars (s : string) : list Value :=
  match s with
  | EmptyString => []
  | String c s' => Str (String c EmptyString) :: chars s'
  end.

(** What of an instance of a class is not an own enumerable property:
    [message] and [stack], which the [Error] constructor defines as not
    enumerable, and for an error that is no [AppError] its [name], which
    is read from the prototype ([AppError] assigns [this.name], an own
    enumerable property). *)
Definition notEnumerable (cls : Class) : list string :=
  match cls with
  | ClsObject => []
  | ClsError => ["message"; "stack"; "name"]
  | ClsAppError => ["message"; "stack"]
  end.

(** The own enumerable properties that [{...v}] copies: every property
    of a plain object, those of a class instance that are own and
    enumerable, the indices of an array or of a string (one entry per
    character), nothing for the other primitives. *)
Definition ownEnumerable (v : Value) : gmap string Value :=
  match v with
  | Obj cls props => foldr delete props (notEnumerable cls)
  | Arr xs => indexed xs
  | Str s => indexed (chars s)
  | _ => ∅
  end.

(** An object literal [{k1: v1, ..., kn: vn}]: a later entry for the same
    key replaces the earlier one. *)
Definition objLit (entries : list (string * Value)) : gmap string Value :=
  foldl (λ m kv, <[kv.1 := kv.2]> m) ∅ entries.

(** [{...m, ...v}]: the properties of [v] are written over [m]. *)
Definition spread (m : gmap string Value) (v : Value) : gmap string Value :=
  ownEnumerable v ∪ m.

(** What [JSON.stringify] keeps of a property: one whose value is
    [undefined] is left out of the text. *)
Definition jsonField (body : Value) (k : string) : option Value :=
  match body with
  | Obj _ props =>
      match props !! k with
      | Some Undefined => None
      | o => o
      end
  | _ => None
  end.

End Js.

(** ** The Express surface the middleware touches *)

Module Express.
Import Js.

(** [req.url] and [req.path]. *)
Record Request := mkRequest { url : string; path : string }.

(** The response as the calls of this program shape it: the status code
    and media type last set, the value handed to [json], and whether the
    headers went out. *)
Record Response := mkResponse {
  headersSent : bool;
  statusCode : Value;
  contentType : option string;
  body : option Value
}.

(** A response nothing was written to yet. *)
Definition fresh : Response :=
  {| headersSent := false; statusCode := Num 200;
     contentType := None; body := None |}.

(** Everything a handler can act on: the response, the lines written with
    [console.error], and the errors handed to [next]. *)
Record World := mkWorld {
  res : Response;
  console : list (list Value);
  forwarded : list Value
}.

(** State over [World] with JavaScript exceptions. *)
Definition M (A : Type) : Type := World → Completion A * World.

#[export] Instance M_ret : MRet M := λ A a w, (Normal a, w).
#[export] Instance M_bind : MBind M := λ A B f c w,
  match c w with
  | (Normal a, w') => f a w'
  | (Throw e, w') => (Throw e, w')
  end.

(** A property read inside a handler. *)
Definition eval {A} (c : Completion A) : M A := λ w, (c, w).

Definition modifyRes (f : Response → Response) : M unit :=
  λ w, (Normal (), {| res := f (res w); console := console w;
                      forwarded := forwarded w |}).

(** [res.headersSent] *)
Definition res_headersSent : M bool := λ w, (Normal (headersSent (res w)), w).

(** [throw e] *)
Definition throw {A} (e : Exception) : M A := λ w, (Throw e, w).

(** The status codes a response can go out with: the integers from 100
    to 999. *)
Definition validStatus (code : Value) : bool :=
  match code with
  | Num n => bool_decide (100 ≤ n ≤ 999)%Z
  | _ => false
  end.

(** [res.status(code)], as Express 5 has it: a code that is no integer is
    a [TypeError], an integer outside 100..999 a [RangeError], and the
    response keeps the status it had.  (Express 4 takes the value here and
    leaves the check to Node, which throws the [RangeError] when the
    response is sent.) *)
Definition res_status (code : Value) : M unit :=
  match code with
  | Num n =>
      if bool_decide (100 ≤ n ≤ 999)%Z then
        modifyRes (λ r, {| headersSent := headersSent r; statusCode := code;
                           contentType := contentType r; body := body r |})
      else throw (RangeError "Invalid status code")
  | _ => throw (TypeError "Invalid status code")
  end.

(** [res.type(t)]; a header cannot be set once the headers went out. *)
Definition res_type (t : string) : M unit :=
  sent ← res_headersSent;
  if sent : bool then
    throw (HeadersSentError "Cannot set headers after they are sent to the client")
  else
    modifyRes (λ r, {| headersSent := headersSent r;
                       statusCode := statusCode r;
                       contentType := Some t; body := body r |}).

(** [res.json(b)]: the media type defaults to JSON when none was set, the
    body is written and the response is finished.  Nothing is written on
    a response whose headers went out already, nor under a status code
    that is not valid: both throw. *)
Definition res_json (b : Value) : M unit :=
  sent ← res_headersSent;
  if sent : bool then
    throw (HeadersSentError "Cannot set headers after they are sent to the client")
  else
    code ← (λ w, (Normal (statusCode (res w)), w));
    if validStatus code then
      modifyRes (λ r, {| headersSent := true; statusCode := statusCode r;
                         contentType :=
                           Some (default "application/json" (contentType r));
                         body := Some b |})
    else throw (RangeError "Invalid status code").

(** [console.error(...args)] *)
Definition console_error (args : list Value) : M unit :=
  λ w, (Normal (), {| res := res w; console := console w ++ [args];
                      forwarded := forwarded w |}).

(** [next(err)] *)
Definition next (err : Value) : M unit :=
  λ w, (Normal (), {| res := res w; console := console w;
                      forwarded := forwarded w ++ [err] |}).

End Express.

(** ** server/middleware/errorHandler.ts *)

Module ErrorHandler.
Import Js Express.

(** [new AppError(status, title, detail, type = 'about:blank', extra?)]:
    the parameter properties, and [name] set by the constructor.  A
    parameter passed as [undefined] takes its default. *)
Definition AppError (status : Z) (title detail : string)
    (type : option string) (extra : option (gmap string Value)) : Value :=
  Obj ClsAppError (objLit [
    ("message", Str detail);
    ("status", Num status);
    ("title", Str title);
    ("detail", Str detail);
    ("type", Str (default "about:blank" type));
    ("extra", from_option (Obj ClsObject) Undefined extra);
    ("name", Str "AppError")
  ]).

(** The branches of [errorHandler] that build [problemDetail]. *)
Definition problemDetailOf (err : Value) (req : Request) : Completion Value :=
  if instanceofAppError err then
    type ← get err "type";
    title ← get err "title";
    status ← get err "status";
    detail ← get err "detail";
    extra ← get err "extra";
    mret (Obj ClsObject (spread (objLit [
      ("type", type);
      ("title", title);
      ("status", status);
      ("detail", detail);
      ("instance", Str (url req))
    ]) extra))
  else
    name ← get err "name";
    isValidation ←
      (if strictEqStr name "ValidationError" then mret true
       else truthy <$> get err "validation");
    if isValidation : bool then
      validation ← get err "validation";
      errors ← (if truthy validation then mret validation
                else get err "details");
      mret (Obj ClsObject (objLit [
        ("type", Str "https://nutrition-app.com/validation-error");
        ("title", Str "Validation Error");
        ("status", Num 400);
        ("detail", Str "Request validation failed");
        ("instance", Str (url req));
        ("errors", errors)
      ]))
    else
      code ← get err "code";
      if strictEqStr code "23505" then
        mret (Obj ClsObject (objLit [
          ("type", Str "https://nutrition-app.com/duplicate-resource");
          ("title", Str "Duplicate Resource");
          ("status", Num 409);
          ("detail", Str "A resource with this identifier already exists");
          ("instance", Str (url req))
        ]))
      else
      code ← get err "code";
      if strictEqStr code "23503" then
        mret (Obj ClsObject (objLit [
          ("type", Str "https://nutrition-app.com/reference-error");
          ("title", Str "Reference Error");
          ("status", Num 400);
          ("detail", Str "Referenced resource does not exist");
          ("instance", Str (url req))
        ]))
      else
        mret (Obj ClsObject (objLit [
          ("type", Str "about:blank");
          ("title", Str "Internal Server Error");
          ("status", Num 500);
          ("detail", Str "An unexpected error occurred");
          ("instance", Str (url req))
        ])).

Definition errorHandler (err : Value) (req : Request) : M unit :=
  sent ← res_headersSent;
  if sent : bool then
    next err
  else
    console_error [Str "Error:"; err];;
    problemDetail ← eval (problemDetailOf err req);
    status ← eval (get problemDetail "status");
    res_status status;;
    res_type "application/problem+json";;
    res_json problemDetail.

Definition notFoundHandler (req : Request) : M unit :=
  res_status (Num 404);;
  res_json (Obj ClsObject (objLit [
    ("type", Str "about:blank");
    ("title", Str "Not Found");
    ("status", Num 404);
    ("detail", Str ("No resource found at " +:+ path req));
    ("instance", Str (url req))
  ])).

End ErrorHandler.

(** ** Vocabulary of the statements about the middleware *)

Module ProblemDetail.
Import Js Express ErrorHandler.

(** The members every problem-details body carries. *)
Definition standardFields : list string :=
  ["type"; "title"; "status"; "detail"; "instance"].

(** [b] serialises to JSON text that has all five members, [instance]
    being the request URL [u]. *)
Definition problemShape (b : Value) (u : string) : Prop :=
  (∀ k, k ∈ standardFields → is_Some (jsonField b k)) ∧
  jsonField b "instance" = Some (Str u).

(** The handler finished normally and wrote a body of that shape. *)
Definition respondsWithProblem (r : Completion unit * World) (u : string) : Prop :=
  r.1 = Normal () ∧ ∃ b, body (res r.2) = Some b ∧ problemShape b u.

(** The response [errorHandler] leaves behind for a given [problemDetail]. *)
Definition written (pd : Value) : Response :=
  {| headersSent := true;
     statusCode := default Undefined (ownEnumerable pd !! "status");
     contentType := Some "application/problem+json";
     body := Some pd |}.

Definition logged (err : Value) (w : World) : list (list Value) :=
  console w ++ [[Str "Error:"; err]].

(** The standard member [k] of the body that answers an [AppError] with
    the properties [props]: what [extra] has under [k] when it has
    something, and otherwise the request URL for [instance] and the
    error's own member for the other four. *)
Definition overlaid (props : gmap string Value) (req : Request) (k : string)
    : Value :=
  match ownEnumerable (default Undefined (props !! "extra")) !! k with
  | Some v => v
  | None =>
      if String.eqb k "instance" then Str (url req)
      else default Undefined (props !! k)
  end.

(** What makes the answer to an [AppError] a body of the standard shape:
    a valid status code, a [type], [title] and [detail] that are not
    [undefined], and the request URL as [instance]. *)
Definition answersInShape (props : gmap string Value) (req : Request) : Prop :=
  validStatus (overlaid props req "status") = true ∧
  overlaid props req "type" ≠ Undefined ∧
  overlaid props req "title" ≠ Undefined ∧
  overlaid props req "detail" ≠ Undefined ∧
  overlaid props req "instance" = Str (url req).

(** The bodies of the four branches for errors that are not [AppError]s. *)
Definition validationProblem (req : Request) (errors : Value) : Value :=
  Obj ClsObject (objLit [
    ("type", Str "https://nutrition-app.com/validation-error");
    ("title", Str "Validation Error");
    ("status", Num 400);
    ("detail", Str "Request validation failed");
    ("instance", Str (url req));
    ("errors", errors)
  ]).

Definition duplicateProblem (req : Request) : Value :=
  Obj ClsObject (objLit [
    ("type", Str "https://nutrition-app.com/duplicate-resource");
    ("title", Str "Duplicate Resource");
    ("status", Num 409);
    ("detail", Str "A resource with this identifier already exists");
    ("instance", Str (url req))
  ]).

Definition referenceProblem (req : Request) : Value :=
  Obj ClsObject (objLit [
    ("type", Str "https://nutrition-app.com/reference-error");
    ("title", Str "Reference Error");
    ("status", Num 400);
    ("detail", Str "Referenced resource does not exist");
    ("instance", Str (url req))
  ]).

Definition internalProblem (req : Request) : Value :=
  Obj ClsObject (objLit [
    ("type", Str "about:blank");
    ("title", Str "Internal Server Error");
    ("status", Num 500);
    ("detail", Str "An unexpected error occurred");
    ("instance", Str (url req))
  ]).

End ProblemDetail.

Module FilterCompiler.
Import Js.

(** Modelled from the spec: the raw query parameters of a search request
    (section 4.1 and section 6); the route and its validator are not part
    of the sources at hand.  Nutrition bounds are integers in the unit of
    the stored per-serving facts. *)
Record Query := mkQuery {
  q : option string;
  diets : list string;
  allergens : list string;
  cuisines : list string;
  calories_min : option Z;
  calories_max : option Z;
  protein_min : option Z;
  sugar_max : option Z;
  sodium_max : option Z;
  fiber_min : option Z;
  saturated_fat_max : option Z;
  time_max : option Z;
  limit : option N;
  offset : option N
}.

(** Modelled from the spec: the taxonomy tables ([tax_*]) that fix the
    known diet, allergen and cuisine tokens. *)
Record Taxonomy := mkTaxonomy {
  knownDiets : list string;
  knownAllergens : list string;
  knownCuisines : list string
}.

(** Modelled from the spec: the validation failures section 4.1 names. *)
Inductive Violation :=
| ProteinMinNegative
| CaloriesRangeEmpty
| UnknownDiet (token : string)
| UnknownAllergen (token : string)
| UnknownCuisine (token : string).

(** Modelled from the spec: when a query commits a violation, in the words
    of section 4.1: [protein_min < 0], [calories_min > calories_max], an
    unknown diet, cuisine or allergen token. *)
Inductive violates (tax : Taxonomy) (query : Query) : Violation → Prop :=
| v_protein p :
    protein_min query = Some p → p < 0 →
    violates tax query ProteinMinNegative
| v_calories lo hi :
    calories_min query = Some lo → calories_max query = Some hi → lo > hi →
    violates tax query CaloriesRangeEmpty
| v_diet t :
    t ∈ diets query → t ∉ knownDiets tax → violates tax query (UnknownDiet t)
| v_allergen t :
    t ∈ allergens query → t ∉ knownAllergens tax →
    violates tax query (UnknownAllergen t)
| v_cuisine t :
    t ∈ cuisines query → t ∉ knownCuisines tax →
    violates tax query (UnknownCuisine t).

Definition unknown (known tokens : list string) : list string :=
  filter (λ t, t ∉ known) tokens.

(** Modelled from the spec: the validator reports the violations one by
    one, all of them, rather than stopping at the first. *)
Definition validate (tax : Taxonomy) (query : Query) : list Violation :=
  (match protein_min query with
   | Some p => if bool_decide (p < 0) then [ProteinMinNegative] else []
   | None => []
   end) ++
  (match calories_min query, calories_max query with
   | Some lo, Some hi => if bool_decide (lo > hi) then [CaloriesRangeEmpty] else []
   | _, _ => []
   end) ++
  (UnknownDiet <$> unknown (knownDiets tax) (diets query)) ++
  (UnknownAllergen <$> unknown (knownAllergens tax) (allergens query)) ++
  (UnknownCuisine <$> unknown (knownCuisines tax) (cuisines query)).

(** Modelled from the spec: one per-field problem of the response. *)
Definition problemOf (v : Violation) : Value :=
  Obj ClsObject (
    match v with
    | ProteinMinNegative =>
        objLit [("field", Str "protein_min");
                ("message", Str "'protein_min' must be >= 0")]
    | CaloriesRangeEmpty =>
        objLit [("field", Str "calories_min");
                ("message", Str "'calories_min' must be <= 'calories_max'")]
    | UnknownDiet t =>
        objLit [("field", Str "diets"); ("message", Str ("unknown diet " +:+ t))]
    | UnknownAllergen t =>
        objLit [("field", Str "allergens");
                ("message", Str ("unknown allergen " +:+ t))]
    | UnknownCuisine t =>
        objLit [("field", Str "cuisines");
                ("message", Str ("unknown cuisine " +:+ t))]
    end).

(** Modelled from the spec: a validation failure as the error value the
    validation branch of [errorHandler] recognises, carrying its problems
    in [validation]. *)
Definition validationError (vs : list Violation) : Value :=
  Obj ClsError (objLit [
    ("name", Str "ValidationError");
    ("message", Str "Request validation failed");
    ("validation", Arr (problemOf <$> vs))
  ]).

End FilterCompiler.

Module Search.
Local Open Scope Z_scope.

(** Modelled from the spec: a recipe of the corpus (section 3), with its
    identity, the per-serving facts the filters read, and [updated_at];
    the search RPC and its route are not part of the sources at hand. *)
Record Recipe := mkRecipe {
  id : Z;
  calories : Z;
  protein : Z;
  sugar : Z;
  sodium : Z;
  fiber : Z;
  total_time : Z;
  cuisines : list string;
  diet_tags : list string;
  allergens : list string;
  updated_at : Z
}.

(** Modelled from the spec: the page a search returns, with the limit and
    offset that were used and the number of matches (section 6). *)
Record Page := mkPage {
  items : list Recipe;
  limit : N;
  offset : N;
  total : nat
}.

(** Modelled from the spec: "limit (default 50, hard max 200)". *)
Definition defaultLimit : N := 50.
Definition maxLimit : N := 200.

(** Modelled from the spec: a limit over the maximum is clamped. *)
Definition effectiveLimit (requested : option N) : N :=
  N.min (default defaultLimit requested) maxLimit.

Section Sequencer.

(** The predicate set of the Filter Compiler and the composite score of
    the Scoring Engine, for the requester and the instant of the request;
    the sequencer takes both as given. *)
Variable passes : FilterCompiler.Query → Recipe → bool.
Variable score : FilterCompiler.Query → Recipe → Z.

(** Modelled from the spec: the total order of section 4.3, composite
    score descending, then [updated_at] descending, then identity
    ascending. *)
Definition before (query : FilterCompiler.Query) (a b : Recipe) : Prop :=
  score query b < score query a ∨
  (score query a = score query b ∧
   (updated_at b < updated_at a ∨
    (updated_at a = updated_at b ∧ id a ≤ id b))).

#[export] Instance before_dec query a b : Decision (before query a b).
Proof. unfold before. apply _. Defined.

(** Modelled from the spec: candidates are the recipes that pass the
    filters; they are put in the order of [before]. *)
Definition ranked (query : FilterCompiler.Query) (corpus : list Recipe)
    : list Recipe :=
  merge_sort (before query) (filter (λ r, passes query r = true) corpus).

(** Modelled from the spec: a search either reports the violations of the
    query or returns the requested slice of the ranked candidates together
    with the limit and offset used and the number of matches. *)
Definition search (tax : FilterCompiler.Taxonomy)
    (query : FilterCompiler.Query) (corpus : list Recipe)
    : list FilterCompiler.Violation + Page :=
  match FilterCompiler.validate tax query with
  | [] =>
      let lim := effectiveLimit (FilterCompiler.limit query) in
      let off := default 0%N (FilterCompiler.offset query) in
      let all := ranked query corpus in
      inr {| items := take (N.to_nat lim) (drop (N.to_nat off) all);
             limit := lim; offset := off; total := length all |}
  | vs => inl vs
  end.

End Sequencer.

End Search.

(** The example of section 8: recipes A and B against
    [{protein_min: 20, time_max: 30, limit: 50}]. *)
Module SearchExample.
Import Search.
Local Open Scope Z_scope.

Definition passesBounds (query : FilterCompiler.Query) (r : Recipe) : bool :=
  bool_decide (default 0 (FilterCompiler.protein_min query) ≤ protein r) &&
  match FilterCompiler.time_max query with
  | Some t => bool_decide (total_time r ≤ t)
  | None => true
  end.

(** Text, diet and popularity being equal, recency decides. *)
Definition recency (_ : FilterCompiler.Query) (r : Recipe) : Z := updated_at r.

Definition tax : FilterCompiler.Taxonomy :=
  {| FilterCompiler.knownDiets := ["vegan"];
     FilterCompiler.knownAllergens := ["peanut"];
     FilterCompiler.knownCuisines := ["thai"] |}.

Definition query (lim : option N) : FilterCompiler.Query :=
  {| FilterCompiler.q := None; FilterCompiler.diets := [];
     FilterCompiler.allergens := []; FilterCompiler.cuisines := [];
     FilterCompiler.calories_min := None; FilterCompiler.calories_max := None;
     FilterCompiler.protein_min := Some 20; FilterCompiler.sugar_max := None;
     FilterCompiler.sodium_max := None; FilterCompiler.fiber_min := None;
     FilterCompiler.saturated_fat_max := None;
     FilterCompiler.time_max := Some 30;
     FilterCompiler.limit := lim; FilterCompiler.offset := None |}.

Definition recipe (i p t u : Z) : Recipe :=
  {| id := i; calories := 400; protein := p; sugar := 5; sodium := 300;
     fiber := 4; total_time := t; cuisines := ["thai"]; diet_tags := [];
     allergens := []; updated_at := u |}.

Definition A := recipe 1 25 20 1000.
Definition B := recipe 2 22 25 970.
Definition slow := recipe 3 30 45 1000.
Definition lean := recipe 4 12 10 1000.

End SearchExample.

Module Idempotency.
Local Open Scope Z_scope.

(** Modelled from the spec: the gate "applies to POST/PUT/PATCH only; GET
    is never gated" (section 4.5); the middleware itself is not part of
    the sources at hand. *)
Inductive Method := GET | POST | PUT | PATCH.

Definition gated (m : Method) : bool :=
  match m with
  | GET => false
  | POST | PUT | PATCH => true
  end.

(** Modelled from the spec: the replay window, 24 hours, in seconds. *)
Definition replayWindow : Z := 24 * 60 * 60.

(** Modelled from the spec: "a key reused with a different request
    fingerprint is a conflict". *)
Inductive ConflictError := Conflict.

Section Gate.

(** The state the operations change and the results they return. *)
Context {State Result : Type}.

(** Modelled from the spec: the record kept for a key and its requester:
    the request fingerprint, the stored response and the creation time. *)
Record IdempotencyRecord := mkRecord {
  fingerprint : string;
  response : Result;
  created_at : Z
}.

(** Modelled from the spec: a record "expires after the replay window
    (24h from creation)". *)
Definition live (now : Z) (rec : IdempotencyRecord) : bool :=
  bool_decide (now < created_at rec + replayWindow).

(** Run the operation and record its result under the key. *)
Definition runAndStore (key requester fp : string)
    (operation : State → Result * State) (now : Z)
    (store : gmap (string * string) IdempotencyRecord) (st : State)
    : (Result + ConflictError) * gmap (string * string) IdempotencyRecord * State :=
  let '(r, st') := operation st in
  (inl r,
   <[(requester, key) := {| fingerprint := fp; response := r;
                            created_at := now |}]> store,
   st').

(** Modelled from the spec: [execute(key, requester, requestFingerprint,
    operation)] of section 4.5, at the instant [now], over the record store
    and the underlying state. *)
Definition execute (key requester fp : string)
    (operation : State → Result * State) (now : Z)
    (store : gmap (string * string) IdempotencyRecord) (st : State)
    : (Result + ConflictError) * gmap (string * string) IdempotencyRecord * State :=
  match store !! (requester, key) with
  | Some rec =>
      if live now rec then
        if decide (fingerprint rec = fp) then (inl (response rec), store, st)
        else (inr Conflict, store, st)
      else runAndStore key requester fp operation now store st
  | None => runAndStore key requester fp operation now store st
  end.

(** Modelled from the spec: a request without [Idempotency-Key], or a GET,
    passes through the gate (section 6). *)
Definition handle (m : Method) (key : option string) (requester fp : string)
    (operation : State → Result * State) (now : Z)
    (store : gmap (string * string) IdempotencyRecord) (st : State)
    : (Result + ConflictError) * gmap (string * string) IdempotencyRecord * State :=
  match key with
  | Some k =>
      if gated m then execute k requester fp operation now store st
      else let '(r, st') := operation st in (inl r, store, st')
  | None => let '(r, st') := operation st in (inl r, store, st')
  end.

(** Modelled from the spec: one request as it reaches the gate: its
    method, its [Idempotency-Key] if any, the requester, the fingerprint
    of the request, the operation it asks for and the instant it comes. *)
Record Call := mkCall {
  call_method : Method;
  call_key : option string;
  call_requester : string;
  call_fingerprint : string;
  call_operation : State → Result * State;
  call_at : Z
}.

(** The gate serving requests one after the other. *)
Definition serve (calls : list Call)
    (store : gmap (string * string) IdempotencyRecord) (st : State)
    : gmap (string * string) IdempotencyRecord * State :=
  foldl (λ acc c,
           let r := handle (call_method c) (call_key c) (call_requester c)
                      (call_fingerprint c) (call_operation c) (call_at c)
                      acc.1 acc.2 in
           (r.1.2, r.2))
        (store, st) calls.

End Gate.

Arguments IdempotencyRecord : clear implicits.
Arguments Call : clear implicits.

(** Saving a recipe, with the number of state changes as the state. *)
Definition save (changes : nat) : string * nat := ("saved", S changes).

End Idempotency.

(** * Properties *)

(** ** Properties of the error middleware *)

Module ErrorHandlerFacts.
Import Js Express ErrorHandler ProblemDetail.

Lemma problemDetailOf_obj err req pd :
  problemDetailOf err req = Normal pd → ∃ props, pd = Obj ClsObject props.
Proof.
  unfold problemDetailOf. intros H.
  destruct err as [| |b|n| |s|xs|[] props]; simpl in H;
    try discriminate; try (inversion H; eauto; fail);
    repeat (match type of H with
            | context [if ?c then _ else _] => destruct c; simpl in H
            end);
    inversion H; eauto.
Qed.

Lemma problemDetailOf_defined err req :
  err ≠ Undefined → err ≠ Null → ∃ pd, problemDetailOf err req = Normal pd.
Proof.
  intros Hu Hn. unfold problemDetailOf.
  destruct err as [| |b|n| |s|xs|[] props]; simpl; try congruence; eauto;
    repeat (match goal with
            | |- context [if ?c then _ else _] => destruct c; simpl
            end); eauto.
Qed.

(** One run of the handler on a response that was not sent yet, for a
    body whose [status] is a valid status code. *)
Lemma errorHandler_unsent err req w pd :
  headersSent (res w) = false →
  problemDetailOf err req = Normal pd →
  validStatus (statusCode (written pd)) = true →
  errorHandler err req w =
    (Normal (), {| res := written pd; console := logged err w;
                   forwarded := forwarded w |}).
Proof.
  intros Hs Hpd Hvalid. destruct (problemDetailOf_obj _ _ _ Hpd) as [props ->].
  unfold errorHandler, mbind, M_bind, res_headersSent. simpl. rewrite Hs.
  unfold console_error, eval. simpl. rewrite Hpd.
  change (statusCode (written (Obj ClsObject props)))
    with (default Undefined (props !! "status")) in Hvalid.
  change (get (Obj ClsObject props) "status")
    with (Normal (default Undefined (props !! "status"))).
  destruct (default Undefined (props !! "status")) as [| | |n| | | |] eqn:Est;
    try discriminate Hvalid.
  apply bool_decide_eq_true in Hvalid.
  unfold res_status, res_type, res_json, modifyRes, mbind, M_bind,
    res_headersSent, validStatus, written.
  cbn [res headersSent statusCode ownEnumerable notEnumerable foldr].
  rewrite (bool_decide_eq_true_2 _ Hvalid). cbn [res headersSent statusCode].
  rewrite Hs. cbn [res headersSent statusCode].
  rewrite ?Hs, ?(bool_decide_eq_true_2 _ Hvalid), ?Est. reflexivity.
Qed.

(** The same run for a body whose [status] is no valid status code:
    [res.status] throws and the response stays as it was. *)
Lemma errorHandler_invalid err req w pd :
  headersSent (res w) = false →
  problemDetailOf err req = Normal pd →
  validStatus (statusCode (written pd)) = false →
  ∃ e, errorHandler err req w =
    (Throw e, {| res := res w; console := logged err w;
                 forwarded := forwarded w |}).
Proof.
  intros Hs Hpd Hvalid. destruct (problemDetailOf_obj _ _ _ Hpd) as [props ->].
  unfold errorHandler, mbind, M_bind, res_headersSent. simpl. rewrite Hs.
  unfold console_error, eval. simpl. rewrite Hpd.
  change (statusCode (written (Obj ClsObject props)))
    with (default Undefined (props !! "status")) in Hvalid.
  change (get (Obj ClsObject props) "status")
    with (Normal (default Undefined (props !! "status"))).
  destruct (default Undefined (props !! "status")) as [| | |n| | | |];
    try (eexists; reflexivity).
  apply bool_decide_eq_false in Hvalid.
  unfold res_status. rewrite (bool_decide_eq_false_2 _ Hvalid).
  eexists. reflexivity.
Qed.

Lemma errorHandler_throws err req w e :
  headersSent (res w) = false →
  problemDetailOf err req = Throw e →
  errorHandler err req w =
    (Throw e, {| res := res w; console := logged err w;
                 forwarded := forwarded w |}).
Proof.
  intros Hs Hpd.
  unfold errorHandler, mbind, M_bind, res_headersSent. simpl. rewrite Hs.
  unfold console_error, eval. simpl. rewrite Hpd. reflexivity.
Qed.

(** Membership in a literal list, and case analysis on it. *)
Ltac in_list :=
  repeat first [apply list_elem_of_here | apply list_elem_of_further].

Lemma strictEqStr_false v lit : v ≠ Str lit → strictEqStr v lit = false.
Proof.
  destruct v; simpl; try reflexivity. intros H.
  apply String.eqb_neq. congruence.
Qed.

Lemma strictEqStr_true v lit : strictEqStr v lit = true → v = Str lit.
Proof.
  destruct v; simpl; try discriminate. intros H.
  apply String.eqb_eq in H. congruence.
Qed.

(** A value that is neither [undefined] nor [null] answers every read. *)
Lemma get_defined err k :
  err ≠ Undefined → err ≠ Null → ∃ v, get err k = Normal v.
Proof. destruct err; simpl; eauto; congruence. Qed.

(** Which branch builds the body, for an error that is no [AppError]. *)
Lemma problemDetailOf_validation err req name validation details :
  instanceofAppError err = false →
  get err "name" = Normal name →
  get err "validation" = Normal validation →
  get err "details" = Normal details →
  name = Str "ValidationError" ∨ truthy validation = true →
  problemDetailOf err req =
    Normal (validationProblem req (if truthy validation then validation
                                   else details)).
Proof.
  intros Happ Hn Hv Hd Hor. unfold problemDetailOf.
  rewrite Happ, Hn. simpl. rewrite Hv. simpl.
  destruct (strictEqStr name "ValidationError") eqn:En; simpl.
  - destruct (truthy validation); simpl; [reflexivity|].
    rewrite Hd. reflexivity.
  - destruct Hor as [->|Ht]; [discriminate En|].
    rewrite Ht. reflexivity.
Qed.

Lemma problemDetailOf_by_code err req name validation code :
  instanceofAppError err = false →
  get err "name" = Normal name →
  name ≠ Str "ValidationError" →
  get err "validation" = Normal validation →
  truthy validation = false →
  get err "code" = Normal code →
  problemDetailOf err req =
    Normal (if strictEqStr code "23505" then duplicateProblem req
            else if strictEqStr code "23503" then referenceProblem req
            else internalProblem req).
Proof.
  intros Happ Hn Hne Hv Ht Hc. unfold problemDetailOf.
  rewrite Happ, Hn. simpl. rewrite (strictEqStr_false _ _ Hne), Hv. simpl.
  rewrite Ht, Hc. simpl.
  destruct (strictEqStr code "23505"); [reflexivity|].
  destruct (strictEqStr code "23503"); reflexivity.
Qed.

Lemma problemDetailOf_app props req :
  problemDetailOf (Obj ClsAppError props) req =
    Normal (Obj ClsObject (spread (objLit [
      ("type", default Undefined (props !! "type"));
      ("title", default Undefined (props !! "title"));
      ("status", default Undefined (props !! "status"));
      ("detail", default Undefined (props !! "detail"));
      ("instance", Str (url req))
    ]) (default Undefined (props !! "extra")))).
Proof. reflexivity. Qed.

Lemma problemShape_validation req errors :
  problemShape (validationProblem req errors) (url req).
Proof.
  split; [|reflexivity]. intros k Hk. unfold standardFields in Hk.
  repeat (apply elem_of_cons in Hk as [->|Hk]; [vm_compute; eauto|]).
  by apply elem_of_nil in Hk.
Qed.

Lemma problemShape_by_code req code :
  problemShape (if strictEqStr code "23505" then duplicateProblem req
                else if strictEqStr code "23503" then referenceProblem req
                else internalProblem req) (url req).
Proof.
  destruct (strictEqStr code "23505"); [|destruct (strictEqStr code "23503")];
    (split; [|reflexivity]); intros k Hk; unfold standardFields in Hk;
    repeat (apply elem_of_cons in Hk as [->|Hk]; [vm_compute; eauto|]);
    by apply elem_of_nil in Hk.
Qed.

Lemma jsonField_is_Some cls props k :
  is_Some (jsonField (Obj cls props) k) ↔
  ∃ v, props !! k = Some v ∧ v ≠ Undefined.
Proof.
  simpl. split.
  - intros [v Hv]. destruct (props !! k) as [[]|]; naive_solver.
  - intros (v & -> & Hv). destruct v; naive_solver.
Qed.

Lemma jsonField_spread base extra k :
  ownEnumerable extra !! k = None →
  jsonField (Obj ClsObject (spread base extra)) k =
  jsonField (Obj ClsObject base) k.
Proof.
  intros H. unfold spread. simpl. by rewrite lookup_union_r.
Qed.

(** The bodies of the branches for other errors carry valid codes. *)
Lemma validStatus_validation req errors :
  validStatus (statusCode (written (validationProblem req errors))) = true.
Proof. reflexivity. Qed.

Lemma validStatus_by_code req code :
  validStatus (statusCode (written
    (if strictEqStr code "23505" then duplicateProblem req
     else if strictEqStr code "23503" then referenceProblem req
     else internalProblem req))) = true.
Proof.
  destruct (strictEqStr code "23505"); [reflexivity|].
  destruct (strictEqStr code "23503"); reflexivity.
Qed.

Lemma validStatus_internal req :
  validStatus (statusCode (written (internalProblem req))) = true.
Proof. reflexivity. Qed.

(** The body built for an [AppError] holds the overlaid members. *)
Lemma spread_overlaid props req k :
  k ∈ standardFields →
  spread (objLit [
      ("type", default Undefined (props !! "type"));
      ("title", default Undefined (props !! "title"));
      ("status", default Undefined (props !! "status"));
      ("detail", default Undefined (props !! "detail"));
      ("instance", Str (url req))
    ]) (default Undefined (props !! "extra")) !! k
  = Some (overlaid props req k).
Proof.
  intros Hk. unfold spread, overlaid. rewrite lookup_union.
  destruct (ownEnumerable (default Undefined (props !! "extra")) !! k)
    as [v|]; [by destruct (objLit _ !! k)|].
  rewrite (left_id_L None _). unfold standardFields in Hk.
  repeat (apply elem_of_cons in Hk as [->|Hk];
          [generalize (default Undefined (props !! "type"))
                      (default Undefined (props !! "title"))
                      (default Undefined (props !! "status"))
                      (default Undefined (props !! "detail"));
           intros; vm_compute; reflexivity|]).
  by apply elem_of_nil in Hk.
Qed.

Lemma jsonField_overlaid props req k :
  k ∈ standardFields →
  jsonField (Obj ClsObject (spread (objLit [
      ("type", default Undefined (props !! "type"));
      ("title", default Undefined (props !! "title"));
      ("status", default Undefined (props !! "status"));
      ("detail", default Undefined (props !! "detail"));
      ("instance", Str (url req))
    ]) (default Undefined (props !! "extra")))) k
  = match overlaid props req k with
    | Undefined => None
    | v => Some v
    end.
Proof.
  intros Hk. cbn [jsonField]. rewrite (spread_overlaid _ _ _ Hk).
  by destruct (overlaid props req k).
Qed.

Lemma validStatus_num v : validStatus v = true → ∃ n, v = Num n.
Proof. destruct v; try discriminate. eauto. Qed.

(** When the answer to an [AppError] has the standard shape. *)
Lemma app_error_in_shape props req w :
  headersSent (res w) = false →
  respondsWithProblem (errorHandler (Obj ClsAppError props) req w) (url req)
  ↔ answersInShape props req.
Proof.
  intros Hs. pose proof (problemDetailOf_app props req) as Hpd.
  set (pd := Obj ClsObject _) in Hpd.
  assert (statusCode (written pd) = overlaid props req "status") as Hst.
  { unfold written, pd. cbn [statusCode ownEnumerable notEnumerable foldr].
    rewrite spread_overlaid by in_list. reflexivity. }
  assert (∀ k, k ∈ standardFields →
               jsonField pd k = match overlaid props req k with
                                | Undefined => None
                                | v => Some v
                                end) as Hjson.
  { intros k Hk. by apply jsonField_overlaid. }
  unfold answersInShape. split.
  - intros (Hnormal & b & Hb & Hfields & Hinst).
    destruct (validStatus (statusCode (written pd))) eqn:Hvalid.
    + rewrite (errorHandler_unsent _ _ _ _ Hs Hpd Hvalid) in Hb.
      injection Hb as <-. rewrite <- Hst.
      split; [exact Hvalid|].
      assert (∀ k, k ∈ standardFields → overlaid props req k ≠ Undefined) as Hne.
      { intros k Hk Hu. destruct (Hfields k Hk) as [v Hv].
        rewrite (Hjson k Hk), Hu in Hv. discriminate Hv. }
      repeat (split; [apply Hne; unfold standardFields; in_list|]).
      rewrite Hjson in Hinst by (unfold standardFields; in_list).
      destruct (overlaid props req "instance"); congruence.
    + destruct (errorHandler_invalid _ _ _ _ Hs Hpd Hvalid) as [e He].
      rewrite He in Hnormal. discriminate Hnormal.
  - intros (Hvalid & Hty & Hti & Hde & Hin). rewrite <- Hst in Hvalid.
    rewrite (errorHandler_unsent _ _ _ _ Hs Hpd Hvalid).
    split; [reflexivity|]. exists pd. split; [reflexivity|]. split.
    + intros k Hk. rewrite (Hjson k Hk). unfold standardFields in Hk.
      rewrite Hst in Hvalid. apply validStatus_num in Hvalid as [n Hn].
      repeat (apply elem_of_cons in Hk as [->|Hk];
              [first [by destruct (overlaid props req "type")
                     |by destruct (overlaid props req "title")
                     |by rewrite Hn
                     |by destruct (overlaid props req "detail")
                     |by rewrite Hin]|]).
      by apply elem_of_nil in Hk.
    + rewrite Hjson by (unfold standardFields; in_list). by rewrite Hin.
Qed.

(** C1 as stated fails: an [AppError] whose [extra] carries its own
    [instance] is answered with that value, not with the request URL. *)
Lemma extra_overrides_instance :
  let err := AppError 422 "Unprocessable" "Nothing to cook" None
               (Some {[ "instance" := Str "/elsewhere" ]}) in
  let req := {| url := "/api/v1/recipes"; path := "/api/v1/recipes" |} in
  let w := {| res := fresh; console := []; forwarded := [] |} in
  headersSent (res w) = false ∧
  body (res (errorHandler err req w).2) ≫= (λ b, jsonField b "instance")
    = Some (Str "/elsewhere") ∧
  ¬ respondsWithProblem (errorHandler err req w) (url req).
Proof.
  split; [reflexivity|]. split; [vm_compute; reflexivity|].
  intros (_ & b & Hb & _ & Hi). vm_compute in Hb.
  injection Hb as <-. vm_compute in Hi. discriminate Hi.
Qed.

(** C1, amended: on a response not yet sent, every error that is neither
    [undefined] nor [null] and no [AppError], and every request that
    reaches [notFoundHandler], is answered with a body that has [type],
    [title], [status], [detail] and [instance], the latter being the
    request URL.  An [AppError] is answered with its own members overlaid
    by those of [extra]: whatever [extra] holds under a name is the member
    of that name in the body.  For an [AppError] whose overlaid [status] is
    an integer the answer has the standard shape exactly when that integer
    is from 100 to 999 (for another one [res.status] throws and nothing is
    answered), the overlaid [type], [title] and [detail] are not
    [undefined], and [extra] has no [instance] other than the request
    URL. *)
Theorem every_error_has_problem_shape req w :
  headersSent (res w) = false →
  (∀ err, err ≠ Undefined → err ≠ Null → instanceofAppError err = false →
          respondsWithProblem (errorHandler err req w) (url req)) ∧
  (∀ props n, overlaid props req "status" = Num n →
     (respondsWithProblem (errorHandler (Obj ClsAppError props) req w) (url req)
      ↔ answersInShape props req)) ∧
  (∀ props,
     (errorHandler (Obj ClsAppError props) req w).1 = Normal () →
     ∃ members,
       body (res (errorHandler (Obj ClsAppError props) req w).2)
         = Some (Obj ClsObject members) ∧
       ∀ k v, ownEnumerable (default Undefined (props !! "extra")) !! k = Some v →
              members !! k = Some v) ∧
  respondsWithProblem (notFoundHandler req w) (url req).
Proof.
  intros Hs. split; [|split; [|split]].
  - intros err Hu Hn Happ.
    destruct (get_defined err "name" Hu Hn) as [name Hname].
    destruct (get_defined err "validation" Hu Hn) as [va Hva].
    destruct (get_defined err "details" Hu Hn) as [de Hde].
    destruct (get_defined err "code" Hu Hn) as [co Hco].
    destruct (strictEqStr name "ValidationError" || truthy va) eqn:Ev.
    + assert (name = Str "ValidationError" ∨ truthy va = true) as Hor.
      { apply orb_true_iff in Ev as [E|E];
          [left; by apply strictEqStr_true|by right]. }
      rewrite (errorHandler_unsent _ _ _ _ Hs
                 (problemDetailOf_validation _ req _ _ _ Happ Hname Hva Hde Hor)
                 (validStatus_validation _ _)).
      split; [reflexivity|]. eexists. split; [reflexivity|].
      apply problemShape_validation.
    + apply orb_false_iff in Ev as [En Et].
      assert (name ≠ Str "ValidationError") as Hne.
      { intros ->. discriminate En. }
      rewrite (errorHandler_unsent _ _ _ _ Hs
                 (problemDetailOf_by_code _ req _ _ _ Happ Hname Hne Hva Et Hco)
                 (validStatus_by_code _ _)).
      split; [reflexivity|]. eexists. split; [reflexivity|].
      apply problemShape_by_code.
  - intros props n _. by apply app_error_in_shape.
  - intros props Hnormal. pose proof (problemDetailOf_app props req) as Hpd.
    destruct (validStatus (statusCode (written (Obj ClsObject (spread (objLit [
        ("type", default Undefined (props !! "type"));
        ("title", default Undefined (props !! "title"));
        ("status", default Undefined (props !! "status"));
        ("detail", default Undefined (props !! "detail"));
        ("instance", Str (url req))
      ]) (default Undefined (props !! "extra"))))))) eqn:Hvalid.
    + rewrite (errorHandler_unsent _ _ _ _ Hs Hpd Hvalid).
      eexists. split; [reflexivity|].
      intros k v Hk. unfold spread. by apply lookup_union_Some_l.
    + destruct (errorHandler_invalid _ _ _ _ Hs Hpd Hvalid) as [e He].
      rewrite He in Hnormal. discriminate Hnormal.
  - unfold notFoundHandler, res_status, res_json, modifyRes, mbind, M_bind,
      res_headersSent. simpl. rewrite Hs. simpl.
    split; [reflexivity|]. eexists. split; [reflexivity|].
    split; [|reflexivity]. intros k Hk. unfold standardFields in Hk.
    repeat (apply elem_of_cons in Hk as [->|Hk]; [vm_compute; eauto|]).
    by apply elem_of_nil in Hk.
Qed.

Lemma every_error_has_problem_shape_witness :
  let req := {| url := "/api/v1/recipes/42"; path := "/api/v1/recipes/42" |} in
  let w := {| res := fresh; console := []; forwarded := [] |} in
  let teapot := AppError 400 "Invalid request" "Out of tea" None
                  (Some {[ "status" := Num 418; "title" := Str "Teapot" ]}) in
  respondsWithProblem (errorHandler teapot req w) (url req) ∧
  respondsWithProblem (errorHandler (Str "boom") req w) (url req) ∧
  respondsWithProblem (notFoundHandler req w) (url req).
Proof.
  intros req w teapot.
  destruct (every_error_has_problem_shape req w eq_refl)
    as (Hother & Happ & _ & Hnf).
  split; [|split; [|exact Hnf]].
  - unfold teapot, AppError.
    refine (proj2 (Happ _ 418 _) _); [vm_compute; reflexivity|].
    repeat split; vm_compute; congruence.
  - apply Hother; first [discriminate | reflexivity].
Defined.

(** C2: an error that is no [AppError], whose [name] is not
    ['ValidationError'], whose [validation] is not truthy and whose [code]
    is neither ['23505'] nor ['23503'] is answered with the fixed internal
    error body and status 500; two such errors leave the same response for
    the same request, so nothing of the fault reaches the caller. *)
Theorem internal_faults_collapse err1 err2 req w n1 v1 c1 n2 v2 c2 :
  headersSent (res w) = false →
  instanceofAppError err1 = false →
  get err1 "name" = Normal n1 → n1 ≠ Str "ValidationError" →
  get err1 "validation" = Normal v1 → truthy v1 = false →
  get err1 "code" = Normal c1 → c1 ≠ Str "23505" → c1 ≠ Str "23503" →
  instanceofAppError err2 = false →
  get err2 "name" = Normal n2 → n2 ≠ Str "ValidationError" →
  get err2 "validation" = Normal v2 → truthy v2 = false →
  get err2 "code" = Normal c2 → c2 ≠ Str "23505" → c2 ≠ Str "23503" →
  (errorHandler err1 req w).1 = Normal () ∧
  res (errorHandler err1 req w).2 =
    {| headersSent := true; statusCode := Num 500;
       contentType := Some "application/problem+json";
       body := Some (internalProblem req) |} ∧
  res (errorHandler err1 req w).2 = res (errorHandler err2 req w).2.
Proof.
  intros Hs A1 N1 Nn1 V1 T1 C1 Ca1 Cb1 A2 N2 Nn2 V2 T2 C2 Ca2 Cb2.
  pose proof (problemDetailOf_by_code _ req _ _ _ A1 N1 Nn1 V1 T1 C1) as P1.
  pose proof (problemDetailOf_by_code _ req _ _ _ A2 N2 Nn2 V2 T2 C2) as P2.
  rewrite !strictEqStr_false in P1, P2 by assumption.
  rewrite (errorHandler_unsent _ _ _ _ Hs P1 (validStatus_internal req)),
          (errorHandler_unsent _ _ _ _ Hs P2 (validStatus_internal req)).
  repeat split.
Qed.

Lemma internal_faults_collapse_witness :
  let req := {| url := "/api/v1/recipes"; path := "/api/v1/recipes" |} in
  let w := {| res := fresh; console := []; forwarded := [] |} in
  let err1 := Obj ClsError {[ "name" := Str "TypeError";
                              "message" := Str "db.pool is undefined" ]} in
  let err2 := Str "ECONNREFUSED 10.0.0.7:5432" in
  res (errorHandler err1 req w).2 = res (errorHandler err2 req w).2.
Proof.
  intros req w err1 err2.
  apply (internal_faults_collapse err1 err2 req w
           (Str "TypeError") Undefined Undefined
           Undefined Undefined Undefined);
    first [reflexivity | discriminate].
Defined.

(** One run of the handler through the validation branch. *)
Lemma errorHandler_validation err req w name validation details :
  headersSent (res w) = false →
  instanceofAppError err = false →
  get err "name" = Normal name →
  get err "validation" = Normal validation →
  get err "details" = Normal details →
  name = Str "ValidationError" ∨ truthy validation = true →
  errorHandler err req w =
    (Normal (),
     {| res := written (validationProblem req
                          (if truthy validation then validation else details));
        console := logged err w; forwarded := forwarded w |}).
Proof.
  intros Hs Happ Hn Hv Hd Hor.
  apply errorHandler_unsent;
    [exact Hs|by eapply problemDetailOf_validation
    |apply validStatus_validation].
Qed.

(** C3 as stated fails: an [AppError] is answered from its own members
    even when its [name] is ['ValidationError']. *)
Lemma app_error_named_validation_keeps_status :
  let err := Obj ClsAppError
               (<["name" := Str "ValidationError"]>
                  (ownEnumerable (AppError 422 "Unprocessable"
                                     "Nothing to cook" None None))) in
  let req := {| url := "/api/v1/recipes"; path := "/api/v1/recipes" |} in
  let w := {| res := fresh; console := []; forwarded := [] |} in
  get err "name" = Normal (Str "ValidationError") ∧
  statusCode (res (errorHandler err req w).2) = Num 422 ∧
  statusCode (res (errorHandler err req w).2) ≠ Num 400.
Proof.
  split; [vm_compute; reflexivity|].
  split; [vm_compute; reflexivity|vm_compute; discriminate].
Qed.

(** The [errors] member is [err.validation || err.details]; an error that
    has neither gets a body whose JSON text has no [errors] member. *)
Example validation_error_without_details :
  let err := Obj ClsError {[ "name" := Str "ValidationError" ]} in
  let req := {| url := "/api/v1/recipes"; path := "/api/v1/recipes" |} in
  let w := {| res := fresh; console := []; forwarded := [] |} in
  body (res (errorHandler err req w).2) ≫= (λ b, jsonField b "errors") = None.
Proof. vm_compute. reflexivity. Qed.

(** C3, amended: an error that is no [AppError] and whose [name] is
    ['ValidationError'] or whose [validation] is truthy is answered with
    status 400 and the validation problem body: the five standard members,
    [instance] being the request URL, and [errors] set to
    [err.validation] when that is truthy and to [err.details]
    otherwise. *)
Theorem validation_errors_answered_400 err req w name validation details :
  headersSent (res w) = false →
  instanceofAppError err = false →
  get err "name" = Normal name →
  get err "validation" = Normal validation →
  get err "details" = Normal details →
  name = Str "ValidationError" ∨ truthy validation = true →
  let errors := if truthy validation then validation else details in
  (errorHandler err req w).1 = Normal () ∧
  statusCode (res (errorHandler err req w).2) = Num 400 ∧
  body (res (errorHandler err req w).2) = Some (validationProblem req errors) ∧
  problemShape (validationProblem req errors) (url req) ∧
  ownEnumerable (validationProblem req errors) !! "errors" = Some errors.
Proof.
  intros Hs Happ Hn Hv Hd Hor errors.
  rewrite (errorHandler_validation _ _ _ _ _ _ Hs Happ Hn Hv Hd Hor).
  repeat split; try apply problemShape_validation.
Qed.

Lemma validation_errors_answered_400_witness :
  let req := {| url := "/api/v1/recipes?protein_min=-1";
                path := "/api/v1/recipes" |} in
  let w := {| res := fresh; console := []; forwarded := [] |} in
  let problems := Arr [Str "'protein_min' must be >= 0"] in
  let err := Obj ClsError {[ "name" := Str "ValidationError";
                             "details" := problems ]} in
  statusCode (res (errorHandler err req w).2) = Num 400 ∧
  body (res (errorHandler err req w).2) = Some (validationProblem req problems).
Proof.
  intros req w problems err.
  destruct (validation_errors_answered_400 err req w
              (Str "ValidationError") Undefined problems)
    as (_ & Hst & Hb & _); try reflexivity.
  - left. reflexivity.
  - split; [exact Hst|exact Hb].
Defined.

(** C5: whenever [errorHandler] writes a response, the status code it set
    is the [status] member of the body it sent, also when the [extra] of an
    [AppError] replaced that member. *)
Theorem status_code_matches_body err req w w' :
  headersSent (res w) = false →
  errorHandler err req w = (Normal (), w') →
  ∃ b, body (res w') = Some b ∧ get b "status" = Normal (statusCode (res w')).
Proof.
  intros Hs Hrun. destruct (problemDetailOf err req) as [pd|e] eqn:Hpd.
  - destruct (validStatus (statusCode (written pd))) eqn:Hvalid.
    + rewrite (errorHandler_unsent _ _ _ _ Hs Hpd Hvalid) in Hrun.
      injection Hrun as <-. exists pd. split; [reflexivity|].
      destruct (problemDetailOf_obj _ _ _ Hpd) as [props ->]. reflexivity.
    + destruct (errorHandler_invalid _ _ _ _ Hs Hpd Hvalid) as [e He].
      rewrite He in Hrun. discriminate Hrun.
  - rewrite (errorHandler_throws _ _ _ _ Hs Hpd) in Hrun. discriminate Hrun.
Qed.

Lemma status_code_matches_body_witness :
  let req := {| url := "/api/v1/recipes"; path := "/api/v1/recipes" |} in
  let w := {| res := fresh; console := []; forwarded := [] |} in
  let err := AppError 400 "Invalid request" "Out of tea" None
               (Some {[ "status" := Num 418; "title" := Str "Teapot" ]}) in
  statusCode (res (errorHandler err req w).2) = Num 418 ∧
  ∃ b, body (res (errorHandler err req w).2) = Some b ∧
       get b "status" = Normal (statusCode (res (errorHandler err req w).2)).
Proof.
  intros req w err. split; [vm_compute; reflexivity|].
  apply (status_code_matches_body err req w); reflexivity.
Defined.

(** C6 as stated fails: the validation branch comes first, so an error
    with code ['23505'] and the name ['ValidationError'] is answered 400. *)
Lemma validation_branch_precedes_codes :
  let err := Obj ClsError {[ "name" := Str "ValidationError";
                             "code" := Str "23505" ]} in
  let req := {| url := "/api/v1/recipes"; path := "/api/v1/recipes" |} in
  let w := {| res := fresh; console := []; forwarded := [] |} in
  get err "code" = Normal (Str "23505") ∧
  statusCode (res (errorHandler err req w).2) = Num 400 ∧
  body (res (errorHandler err req w).2) ≫= (λ b, jsonField b "title")
    = Some (Str "Validation Error").
Proof. repeat split; vm_compute; reflexivity. Qed.

(** C6, amended: an error that is no [AppError], whose [name] is not
    ['ValidationError'] and whose [validation] is not truthy is answered
    with status 409 and the fixed 'Duplicate Resource' body when its
    [code] is ['23505'], and with status 400 and the fixed 'Reference
    Error' body when its [code] is ['23503']; the body depends on the
    request alone. *)
Theorem database_codes_mapped err req w name validation code :
  headersSent (res w) = false →
  instanceofAppError err = false →
  get err "name" = Normal name → name ≠ Str "ValidationError" →
  get err "validation" = Normal validation → truthy validation = false →
  get err "code" = Normal code →
  (errorHandler err req w).1 = Normal () ∧
  (code = Str "23505" →
     statusCode (res (errorHandler err req w).2) = Num 409 ∧
     body (res (errorHandler err req w).2) = Some (duplicateProblem req) ∧
     jsonField (duplicateProblem req) "title" = Some (Str "Duplicate Resource") ∧
     jsonField (duplicateProblem req) "detail"
       = Some (Str "A resource with this identifier already exists")) ∧
  (code = Str "23503" →
     statusCode (res (errorHandler err req w).2) = Num 400 ∧
     body (res (errorHandler err req w).2) = Some (referenceProblem req) ∧
     jsonField (referenceProblem req) "title" = Some (Str "Reference Error") ∧
     jsonField (referenceProblem req) "detail"
       = Some (Str "Referenced resource does not exist")).
Proof.
  intros Hs Happ Hn Hne Hv Ht Hc.
  pose proof (problemDetailOf_by_code _ req _ _ _ Happ Hn Hne Hv Ht Hc) as P.
  rewrite (errorHandler_unsent _ _ _ _ Hs P (validStatus_by_code _ _)).
  split; [reflexivity|]. split; intros ->; repeat split.
Qed.

Lemma database_codes_mapped_witness :
  let req := {| url := "/api/v1/recipes/7/save"; path := "/api/v1/recipes/7/save" |} in
  let w := {| res := fresh; console := []; forwarded := [] |} in
  let err := Obj ClsError {[
    "name" := Str "error"; "code" := Str "23505";
    "detail" := Str "Key (user_id, recipe_id)=(u1, 7) already exists." ]} in
  statusCode (res (errorHandler err req w).2) = Num 409 ∧
  body (res (errorHandler err req w).2) = Some (duplicateProblem req).
Proof.
  intros req w err.
  destruct (database_codes_mapped err req w (Str "error") Undefined
              (Str "23505")) as (_ & Hdup & _);
    try first [reflexivity | discriminate].
  destruct (Hdup eq_refl) as (Hst & Hb & _). split; [exact Hst|exact Hb].
Defined.

(** C7: once the headers were sent the handler leaves the response and the
    console as they are and hands the same error to [next]. *)
Theorem sent_response_is_delegated err req w :
  headersSent (res w) = true →
  errorHandler err req w =
    (Normal (), {| res := res w; console := console w;
                   forwarded := forwarded w ++ [err] |}).
Proof.
  intros Hs. unfold errorHandler, mbind, M_bind, res_headersSent. simpl.
  rewrite Hs. reflexivity.
Qed.

Lemma sent_response_is_delegated_witness :
  let req := {| url := "/api/v1/recipes"; path := "/api/v1/recipes" |} in
  let sent := {| headersSent := true; statusCode := Num 200;
                 contentType := Some "application/json";
                 body := Some (Arr []) |} in
  let w := {| res := sent; console := []; forwarded := [] |} in
  let err := Obj ClsError {[ "name" := Str "Error" ]} in
  errorHandler err req w =
    (Normal (), {| res := sent; console := []; forwarded := [err] |}).
Proof.
  intros req sent w err.
  apply (sent_response_is_delegated err req w). reflexivity.
Defined.

End ErrorHandlerFacts.

(** ** Properties of the validator *)

Module FilterCompilerFacts.
Import Js Express ErrorHandler ProblemDetail ErrorHandlerFacts FilterCompiler.

Lemma validate_complete tax query v :
  violates tax query v → v ∈ validate tax query.
Proof.
  unfold validate, unknown. intros Hv.
  destruct Hv as [p Hp Hlt|lo hi Hlo Hhi Hgt|t Hin Hun|t Hin Hun|t Hin Hun].
  - rewrite Hp, bool_decide_eq_true_2 by done.
    apply elem_of_app. left. in_list.
  - rewrite Hlo, Hhi, (bool_decide_eq_true_2 _ Hgt).
    apply elem_of_app. right. apply elem_of_app. left. in_list.
  - do 2 (apply elem_of_app; right). apply elem_of_app. left.
    apply list_elem_of_fmap. exists t. split; [done|].
    by apply list_elem_of_filter.
  - do 3 (apply elem_of_app; right). apply elem_of_app. left.
    apply list_elem_of_fmap. exists t. split; [done|].
    by apply list_elem_of_filter.
  - do 4 (apply elem_of_app; right).
    apply list_elem_of_fmap. exists t. split; [done|].
    by apply list_elem_of_filter.
Qed.

Lemma validate_sound tax query v :
  v ∈ validate tax query → violates tax query v.
Proof.
  unfold validate, unknown. rewrite !elem_of_app.
  intros [H|[H|[H|[H|H]]]].
  - destruct (protein_min query) as [p|] eqn:Hp; [|by apply elem_of_nil in H].
    case_bool_decide; [|by apply elem_of_nil in H].
    apply list_elem_of_singleton in H as ->. by eapply v_protein.
  - destruct (calories_min query) as [lo|] eqn:Hlo;
      [|by apply elem_of_nil in H].
    destruct (calories_max query) as [hi|] eqn:Hhi;
      [|by apply elem_of_nil in H].
    case_bool_decide; [|by apply elem_of_nil in H].
    apply list_elem_of_singleton in H as ->. by eapply v_calories.
  - apply list_elem_of_fmap in H as (t & -> & Ht).
    apply list_elem_of_filter in Ht as [??]. by apply v_diet.
  - apply list_elem_of_fmap in H as (t & -> & Ht).
    apply list_elem_of_filter in Ht as [??]. by apply v_allergen.
  - apply list_elem_of_fmap in H as (t & -> & Ht).
    apply list_elem_of_filter in Ht as [??]. by apply v_cuisine.
Qed.

(** C4: the response to a validation failure lists every violation the
    query commits, one entry per violation found, never the first only. *)
Theorem every_violation_is_reported tax query req w :
  headersSent (res w) = false →
  let r := errorHandler (validationError (validate tax query)) req w in
  r.1 = Normal () ∧
  statusCode (res r.2) = Num 400 ∧
  ∃ b reported,
    body (res r.2) = Some b ∧
    jsonField b "errors" = Some (Arr reported) ∧
    reported = problemOf <$> validate tax query ∧
    (∀ v, violates tax query v → problemOf v ∈ reported).
Proof.
  intros Hs r. subst r.
  rewrite (errorHandler_validation
             (validationError (validate tax query)) req w
             (Str "ValidationError")
             (Arr (problemOf <$> validate tax query)) Undefined Hs)
    by first [reflexivity | by left].
  split; [reflexivity|]. split; [reflexivity|].
  eexists _, _. split; [reflexivity|]. split; [reflexivity|].
  split; [reflexivity|].
  intros v Hv. apply list_elem_of_fmap. exists v.
  split; [reflexivity|by apply validate_complete].
Qed.

Lemma every_violation_is_reported_witness :
  let tax := {| knownDiets := ["vegan"; "keto"];
                knownAllergens := ["peanut"; "sesame"];
                knownCuisines := ["thai"; "greek"] |} in
  let query := {| q := None; diets := ["vegan"]; allergens := [];
                  cuisines := ["martian"];
                  calories_min := Some 800; calories_max := Some 300;
                  protein_min := Some (-5); sugar_max := None;
                  sodium_max := None; fiber_min := None;
                  saturated_fat_max := None; time_max := None;
                  limit := None; offset := None |} in
  let req := {| url := "/api/v1/recipes?protein_min=-5";
                path := "/api/v1/recipes" |} in
  let w := {| res := fresh; console := []; forwarded := [] |} in
  validate tax query =
    [ProteinMinNegative; CaloriesRangeEmpty; UnknownCuisine "martian"] ∧
  ∃ b, body (res (errorHandler (validationError (validate tax query)) req w).2)
         = Some b ∧
       jsonField b "errors" =
         Some (Arr [problemOf ProteinMinNegative; problemOf CaloriesRangeEmpty;
                    problemOf (UnknownCuisine "martian")]).
Proof.
  intros tax query req w. split; [vm_compute; reflexivity|].
  destruct (every_violation_is_reported tax query req w eq_refl)
    as (_ & _ & b & reported & Hb & He & Hr & _).
  exists b. split; [exact Hb|]. rewrite He, Hr. reflexivity.
Defined.

End FilterCompilerFacts.

(** ** Properties of the sequencer *)

Module SearchFacts.
Import Search.
Local Open Scope Z_scope.

Section Sequencer.

Variable passes : FilterCompiler.Query → Recipe → bool.
Variable score : FilterCompiler.Query → Recipe → Z.

Local Abbreviation before := (Search.before score).
Local Abbreviation ranked := (Search.ranked passes score).
Local Abbreviation search := (Search.search passes score).

#[export] Instance before_total query : Total (before query).
Proof. intros a b. unfold before. lia. Qed.

#[export] Instance before_trans query : Transitive (before query).
Proof. intros a b c. unfold before. lia. Qed.

Lemma before_antisym query a b :
  before query a b → before query b a → id a = id b.
Proof. unfold before. lia. Qed.

Lemma id_determines (corpus : list Recipe) a b :
  NoDup (id <$> corpus) → a ∈ corpus → b ∈ corpus → id a = id b → a = b.
Proof.
  induction corpus as [|r rs IH]; intros Hnd Ha Hb Hid.
  - by apply elem_of_nil in Ha.
  - rewrite fmap_cons in Hnd. apply NoDup_cons in Hnd as [Hr Hrs].
    apply elem_of_cons in Ha as [->|Ha]; apply elem_of_cons in Hb as [->|Hb].
    + reflexivity.
    + exfalso. apply Hr. rewrite Hid. apply list_elem_of_fmap. eauto.
    + exfalso. apply Hr. rewrite <- Hid. apply list_elem_of_fmap. eauto.
    + by apply IH.
Qed.

Lemma ranked_Permutation query corpus :
  ranked query corpus ≡ₚ filter (λ r, passes query r = true) corpus.
Proof. apply merge_sort_Permutation. Qed.

Lemma ranked_elem query corpus r : r ∈ ranked query corpus → r ∈ corpus.
Proof.
  rewrite ranked_Permutation. intros H.
  by apply list_elem_of_filter in H as [_ ?].
Qed.

Lemma ranked_sorted query corpus :
  StronglySorted (before query) (ranked query corpus).
Proof. apply StronglySorted_merge_sort; apply _. Qed.

(** The ranking does not depend on the order in which the snapshot lists
    its recipes. *)
Lemma ranked_snapshot query c1 c2 :
  NoDup (id <$> c1) → c1 ≡ₚ c2 → ranked query c1 = ranked query c2.
Proof.
  intros Hnd Hperm.
  apply (StronglySorted_unique_strong (before query)).
  - intros x1 x2 H1 H2 H12 H21.
    apply (id_determines c1); [done|by eapply ranked_elem| |
                               by eapply before_antisym].
    rewrite Hperm. by eapply ranked_elem.
  - apply ranked_sorted.
  - apply ranked_sorted.
  - rewrite !ranked_Permutation. by rewrite Hperm.
Qed.

(** C8: for a snapshot in which identities are unique, the search result
    is the same ordered list whichever way the snapshot enumerates its
    recipes; the order by composite score, then [updated_at] descending,
    then identity ascending is total, and two recipes it does not separate
    have the same identity. *)
Theorem search_is_deterministic tax query c1 c2 :
  NoDup (id <$> c1) → c1 ≡ₚ c2 →
  search tax query c1 = search tax query c2 ∧
  (∀ a b, before query a b ∨ before query b a) ∧
  (∀ a b, before query a b → before query b a → id a = id b) ∧
  StronglySorted (before query) (ranked query c1).
Proof.
  intros Hnd Hperm. split; [|split; [|split]].
  - unfold search. by rewrite (ranked_snapshot query c1 c2).
  - apply before_total.
  - apply before_antisym.
  - apply ranked_sorted.
Qed.

(** C10: the limit defaults to 50 and never exceeds 200; a request for
    more than 200 is not rejected but served with the limit 200; the page
    reports the limit that was used to cut it. *)
Theorem limit_is_clamped_and_reported tax query corpus :
  FilterCompiler.validate tax query = [] →
  ∃ page,
    search tax query corpus = inr page ∧
    limit page = effectiveLimit (FilterCompiler.limit query) ∧
    items page = take (N.to_nat (limit page))
                   (drop (N.to_nat (offset page)) (ranked query corpus)) ∧
    (length (items page) ≤ N.to_nat (limit page))%nat ∧
    (limit page ≤ 200)%N ∧
    (FilterCompiler.limit query = None → limit page = 50%N) ∧
    (∀ n, FilterCompiler.limit query = Some n →
          limit page = if decide (200 < n)%N then 200%N else n).
Proof.
  intros Hv. unfold search. rewrite Hv. eexists. split; [reflexivity|].
  simpl. split; [reflexivity|]. split; [reflexivity|].
  split; [rewrite length_take; lia|].
  unfold effectiveLimit, defaultLimit, maxLimit.
  split; [lia|]. split.
  - intros ->. reflexivity.
  - intros n ->. simpl. case_decide; lia.
Qed.

End Sequencer.

Import SearchExample.

Lemma search_is_deterministic_witness :
  search passesBounds recency tax (query None) [lean; B; slow; A] =
  search passesBounds recency tax (query None) [A; slow; B; lean] ∧
  search passesBounds recency tax (query None) [lean; B; slow; A] =
    inr {| items := [A; B]; limit := 50; offset := 0; total := 2 |}.
Proof.
  split; [|vm_compute; reflexivity].
  apply (search_is_deterministic passesBounds recency tax (query None)
           [lean; B; slow; A] [A; slow; B; lean]).
  - apply (bool_decide_unpack _). vm_compute. exact I.
  - exact (Permutation_rev [lean; B; slow; A]).
Defined.

Lemma limit_is_clamped_and_reported_witness :
  ∃ page,
    search passesBounds recency tax (query (Some 500%N)) [lean; B; slow; A]
      = inr page ∧
    limit page = 200%N ∧ items page = [A; B].
Proof.
  destruct (limit_is_clamped_and_reported passesBounds recency tax
              (query (Some 500%N)) [lean; B; slow; A])
    as (page & Hs & _ & Hitems & _ & _ & _ & Hlim);
    [vm_compute; reflexivity|].
  exists page. split; [exact Hs|].
  pose proof (Hlim 500%N eq_refl) as Hl. simpl in Hl. split; [exact Hl|].
  rewrite Hitems, Hl.
  vm_compute in Hs. injection Hs as <-. vm_compute. reflexivity.
Defined.

End SearchFacts.

(** ** Properties of the idempotency gate *)

Module IdempotencyFacts.
Import Idempotency.
Local Open Scope Z_scope.

Section Gate.
Context {State Result : Type}.
Implicit Types (operation : State → Result * State).
Implicit Types (store : gmap (string * string) (IdempotencyRecord Result)).

Lemma execute_novel key requester fp operation now store st :
  (∀ rec, store !! (requester, key) = Some rec → live now rec = false) →
  execute key requester fp operation now store st =
    runAndStore key requester fp operation now store st.
Proof.
  intros Hnone. unfold execute.
  destruct (store !! (requester, key)) as [rec|] eqn:E; [|reflexivity].
  by rewrite (Hnone rec).
Qed.

Lemma execute_replay key requester fp operation now store st rec :
  store !! (requester, key) = Some rec → live now rec = true →
  execute key requester fp operation now store st =
    (if decide (fingerprint rec = fp) then inl (response rec)
     else inr Conflict, store, st).
Proof.
  intros E Hl. unfold execute. rewrite E, Hl. by case_decide.
Qed.

(** A live record outlasts whatever request the gate serves. *)
Lemma handle_keeps_live_record m' key' requester' fp' operation' at'
    store st requester key rec :
  store !! (requester, key) = Some rec → live at' rec = true →
  (handle m' key' requester' fp' operation' at' store st).1.2
    !! (requester, key) = Some rec.
Proof.
  intros Hrec Hlive. unfold handle.
  destruct key' as [k'|]; [|by destruct (operation' st)].
  destruct (gated m'); [|by destruct (operation' st)].
  unfold execute, runAndStore.
  destruct (decide ((requester', k') = (requester, key))) as [E|Hne].
  - injection E as -> ->. rewrite Hrec, Hlive. by case_decide.
  - destruct (store !! (requester', k')) as [rec'|].
    + destruct (live at' rec').
      * by case_decide.
      * destruct (operation' st). simpl. by rewrite lookup_insert_ne.
    + destruct (operation' st). simpl. by rewrite lookup_insert_ne.
Qed.

Lemma serve_keeps_live_record (calls : list (Call State Result))
    store st requester key rec :
  store !! (requester, key) = Some rec →
  (∀ c, c ∈ calls → live (call_at c) rec = true) →
  (serve calls store st).1 !! (requester, key) = Some rec.
Proof.
  revert store st. induction calls as [|c calls IH]; intros store st Hrec Hlive.
  - exact Hrec.
  - unfold serve. cbn [foldl]. apply IH.
    + cbn [fst snd]. apply handle_keeps_live_record; [exact Hrec|].
      apply Hlive. by left.
    + intros c' Hc'. apply Hlive. by right.
Qed.

(** C9: a mutating request that finds no live record for its key runs the
    operation once and stores the result.  Whatever other requests the
    gate serves afterwards, a second call with the same key by the same
    requester, coming like them before the record is 24 hours old,
    returns that stored result and leaves the record store and the
    underlying state as they are when the fingerprint is the same, and
    reports a conflict, again changing nothing, when it differs. *)
Theorem replay_within_window m key requester fp operation now store st :
  gated m = true →
  (∀ rec, store !! (requester, key) = Some rec → live now rec = false) →
  ∃ store1,
    handle m (Some key) requester fp operation now store st =
      (inl (operation st).1, store1, (operation st).2) ∧
    ∀ (calls : list (Call State Result)) st' later operation',
      (∀ c, c ∈ calls → call_at c < now + replayWindow) →
      later < now + replayWindow →
      let after := serve calls store1 st' in
      handle m (Some key) requester fp operation' later after.1 after.2 =
        (inl (operation st).1, after.1, after.2) ∧
      ∀ fp', fp' ≠ fp →
        handle m (Some key) requester fp' operation' later after.1 after.2 =
          (inr Conflict, after.1, after.2).
Proof.
  intros Hm Hnone. unfold handle at 1. rewrite Hm.
  rewrite (execute_novel _ _ _ _ _ _ _ Hnone). unfold runAndStore.
  destruct (operation st) as [r st1] eqn:Hop. simpl.
  eexists. split; [reflexivity|].
  intros calls st' later operation' Hcalls Hlater.
  set (after := serve calls _ st').
  set (rec := {| fingerprint := fp; response := r; created_at := now |}).
  assert (∀ t, t < now + replayWindow → live t rec = true) as Hlive.
  { intros t Ht. unfold live. simpl. by apply bool_decide_eq_true_2. }
  assert (after.1 !! (requester, key) = Some rec) as Hrec.
  { apply serve_keeps_live_record; [apply lookup_insert_eq|].
    intros c Hc. apply Hlive, Hcalls, Hc. }
  unfold handle. rewrite Hm. split.
  - rewrite (execute_replay _ _ _ _ _ _ _ rec Hrec (Hlive _ Hlater)).
    simpl. by rewrite decide_True.
  - intros fp' Hne.
    rewrite (execute_replay _ _ _ _ _ _ _ rec Hrec (Hlive _ Hlater)).
    simpl. by rewrite decide_False.
Qed.

End Gate.

Lemma replay_within_window_witness :
  let other := {| call_method := POST; call_key := Some "k-9";
                  call_requester := "user-2"; call_fingerprint := "fp-z";
                  call_operation := save; call_at := 60 |} in
  ∃ store1,
    handle POST (Some "k-1") "user-1" "fp-a" save 0 ∅ 0%nat =
      (inl "saved", store1, 1%nat) ∧
    let after := serve [other] store1 1%nat in
    after.2 = 2%nat ∧
    handle POST (Some "k-1") "user-1" "fp-a" save 3600 after.1 after.2 =
      (inl "saved", after.1, after.2) ∧
    handle POST (Some "k-1") "user-1" "fp-b" save 3600 after.1 after.2 =
      (inr Conflict, after.1, after.2).
Proof.
  intros other.
  destruct (replay_within_window POST "k-1" "user-1" "fp-a" save 0 ∅ 0%nat
              eq_refl) as (store1 & Hfirst & Hlater).
  { intros rec Hrec. rewrite lookup_empty in Hrec. discriminate Hrec. }
  exists store1. split; [exact Hfirst|].
  destruct (Hlater [other] 1%nat 3600 save) as [Hsame Hdiff].
  { intros c Hc. apply list_elem_of_singleton in Hc as ->.
    vm_compute. reflexivity. }
  { vm_compute. reflexivity. }
  split; [|split; [exact Hsame|apply Hdiff; discriminate]].
  vm_compute in Hfirst. injection Hfirst as <-. vm_compute. reflexivity.
Defined.

End IdempotencyFacts.

(** ** Further properties of the error middleware *)

Module ErrorHandlerMore.
Import Js Express ErrorHandler ProblemDetail ErrorHandlerFacts.

(** One run of the handler on a response that went out already. *)
Lemma errorHandler_sent err req w :
  headersSent (res w) = true →
  errorHandler err req w =
    (Normal (), {| res := res w; console := console w;
                   forwarded := forwarded w ++ [err] |}).
Proof.
  intros Hs. unfold errorHandler, mbind, M_bind, res_headersSent. simpl.
  by rewrite Hs.
Qed.

Lemma problemDetailOf_nullish err req :
  err = Undefined ∨ err = Null → ∃ msg, problemDetailOf err req = Throw (TypeError msg).
Proof. intros [->| ->]; simpl; eauto. Qed.

(** The members the constructor arguments give to the body. *)
Lemma problemDetailOf_AppError status title detail type extra req :
  problemDetailOf (AppError status title detail type extra) req =
    Normal (Obj ClsObject (default ∅ extra ∪ objLit [
      ("type", Str (default "about:blank" type));
      ("title", Str title);
      ("status", Num status);
      ("detail", Str detail);
      ("instance", Str (url req))
    ])).
Proof.
  unfold AppError. rewrite problemDetailOf_app.
  set (props := objLit (("message", _) :: _)).
  assert (props !! "type" = Some (Str (default "about:blank" type))) as ->
    by (vm_compute; reflexivity).
  assert (props !! "title" = Some (Str title)) as ->
    by (vm_compute; reflexivity).
  assert (props !! "status" = Some (Num status)) as ->
    by (vm_compute; reflexivity).
  assert (props !! "detail" = Some (Str detail)) as ->
    by (vm_compute; reflexivity).
  assert (props !! "extra" = Some (from_option (Obj ClsObject) Undefined extra))
    as -> by (vm_compute; reflexivity).
  simpl default. unfold spread. destruct extra; reflexivity.
Qed.

(** The handler leaves the same response for two errors for which it
    builds the same [problemDetail]. *)
Lemma errorHandler_res_by_problemDetail err1 err2 req w :
  problemDetailOf err1 req = problemDetailOf err2 req →
  res (errorHandler err1 req w).2 = res (errorHandler err2 req w).2.
Proof.
  intros Heq. destruct (headersSent (res w)) eqn:Hs.
  - by rewrite !errorHandler_sent.
  - destruct (problemDetailOf err2 req) as [pd|e] eqn:Hpd.
    + destruct (validStatus (statusCode (written pd))) eqn:Hvalid.
      * by rewrite (errorHandler_unsent _ _ _ _ Hs Heq Hvalid),
                   (errorHandler_unsent _ _ _ _ Hs Hpd Hvalid).
      * destruct (errorHandler_invalid _ _ _ _ Hs Heq Hvalid) as [e1 ->].
        by destruct (errorHandler_invalid _ _ _ _ Hs Hpd Hvalid) as [e2 ->].
    + by rewrite (errorHandler_throws _ _ _ _ Hs Heq),
                 (errorHandler_throws _ _ _ _ Hs Hpd).
Qed.

(** On a response not yet sent the handler either finishes the response
    or throws and leaves it as it was. *)
Lemma errorHandler_outcome err req w :
  headersSent (res w) = false →
  ((errorHandler err req w).1 = Normal () ∧
   ∃ pd, problemDetailOf err req = Normal pd ∧
         validStatus (statusCode (written pd)) = true ∧
         res (errorHandler err req w).2 = written pd) ∨
  ((∃ e, (errorHandler err req w).1 = Throw e) ∧
   res (errorHandler err req w).2 = res w).
Proof.
  intros Hs. destruct (problemDetailOf err req) as [pd|e] eqn:Hpd.
  - destruct (validStatus (statusCode (written pd))) eqn:Hvalid.
    + left. rewrite (errorHandler_unsent _ _ _ _ Hs Hpd Hvalid). eauto.
    + right. destruct (errorHandler_invalid _ _ _ _ Hs Hpd Hvalid) as [e ->].
      eauto.
  - right. rewrite (errorHandler_throws _ _ _ _ Hs Hpd). eauto.
Qed.

(** X1: an [AppError] built by its constructor whose status code, the one
    of [extra] if it has one and the constructor's otherwise, is an
    integer from 100 to 999 is answered under that code with the members
    of [extra] laid over the five standard members made of the constructor
    arguments: a key of [extra] has the value [extra] gives it, every
    other key has the standard value (the [type] being ['about:blank']
    when none was passed); without [extra] the body is exactly the five
    standard members.  For an integer outside that range the handler
    throws and nothing is answered. *)
Theorem app_error_round_trip status title detail type extra req w :
  headersSent (res w) = false →
  let standard := objLit [
    ("type", Str (default "about:blank" type));
    ("title", Str title);
    ("status", Num status);
    ("detail", Str detail);
    ("instance", Str (url req))
  ] in
  let code := default (Num status) (default ∅ extra !! "status") in
  let r := errorHandler (AppError status title detail type extra) req w in
  (validStatus code = true →
     r.1 = Normal () ∧
     statusCode (res r.2) = code ∧
     ∃ members,
       body (res r.2) = Some (Obj ClsObject members) ∧
       (∀ k v, default ∅ extra !! k = Some v → members !! k = Some v) ∧
       (∀ k, default ∅ extra !! k = None → members !! k = standard !! k) ∧
       (extra = None → members = standard)) ∧
  (∀ n, code = Num n → ¬ (100 ≤ n ≤ 999)%Z →
     (∃ e, r.1 = Throw e) ∧
     headersSent (res r.2) = false ∧
     body (res r.2) = body (res w)).
Proof.
  intros Hs standard code r. subst r.
  pose proof (problemDetailOf_AppError status title detail type extra req)
    as Hpd. fold standard in Hpd.
  assert (statusCode (written (Obj ClsObject (default ∅ extra ∪ standard)))
          = code) as Hcode.
  { unfold written, code.
    cbn [statusCode ownEnumerable notEnumerable foldr].
    rewrite lookup_union.
    by destruct (default ∅ extra !! "status") as [v|]. }
  split.
  - intros Hvalid. rewrite <- Hcode in Hvalid.
    rewrite (errorHandler_unsent _ _ _ _ Hs Hpd Hvalid).
    split; [reflexivity|]. split; [exact Hcode|].
    eexists. split; [reflexivity|]. split; [|split].
    + intros k v Hk. by apply lookup_union_Some_l.
    + intros k Hk. by apply lookup_union_r.
    + intros ->. simpl. apply (left_id_L ∅ (∪)).
  - intros n Hn Hrange.
    assert (validStatus
              (statusCode (written (Obj ClsObject (default ∅ extra ∪ standard))))
            = false) as Hinvalid.
    { rewrite Hcode, Hn. by apply bool_decide_eq_false_2. }
    destruct (errorHandler_invalid _ _ _ _ Hs Hpd Hinvalid) as [e ->].
    split; [by exists e|]. by split.
Qed.

Lemma app_error_round_trip_witness :
  let req := {| url := "/api/v1/recipes/42"; path := "/api/v1/recipes/42" |} in
  let w := {| res := fresh; console := []; forwarded := [] |} in
  let found := AppError 404 "Not Found" "No such recipe" None
                 (Some {[ "recipeId" := Num 42 ]}) in
  let zero := AppError 0 "T" "D" None None in
  (statusCode (res (errorHandler found req w).2) = Num 404 ∧
   ∃ members,
     body (res (errorHandler found req w).2) = Some (Obj ClsObject members) ∧
     members !! "recipeId" = Some (Num 42) ∧
     members !! "type" = Some (Str "about:blank")) ∧
  ((∃ e, (errorHandler zero req w).1 = Throw e) ∧
   headersSent (res (errorHandler zero req w).2) = false).
Proof.
  intros req w found zero. split.
  - destruct (app_error_round_trip 404 "Not Found" "No such recipe" None
                (Some {[ "recipeId" := Num 42 ]}) req w eq_refl)
      as [Hvalid _].
    destruct (Hvalid eq_refl) as (_ & Hst & members & Hb & Hextra & Hstd & _).
    split; [exact Hst|]. exists members. split; [exact Hb|]. split.
    + apply Hextra. vm_compute. reflexivity.
    + rewrite Hstd by (vm_compute; reflexivity). vm_compute. reflexivity.
  - destruct (app_error_round_trip 0 "T" "D" None None req w eq_refl)
      as [_ Hinvalid].
    destruct (Hinvalid 0%Z eq_refl) as (He & Hsent & _); [lia|].
    split; [exact He|exact Hsent].
Defined.

(** X2: on a response not yet sent the handler writes the error to the
    console exactly once, as ['Error:'] followed by the error, and hands
    nothing to [next], whether it goes on to answer or throws. *)
Theorem unsent_error_is_logged_not_forwarded err req w :
  headersSent (res w) = false →
  console (errorHandler err req w).2
    = (console w ++ [[Str "Error:"; err]])%list ∧
  forwarded (errorHandler err req w).2 = forwarded w.
Proof.
  intros Hs. destruct (problemDetailOf err req) as [pd|e] eqn:Hpd.
  - destruct (validStatus (statusCode (written pd))) eqn:Hvalid.
    + by rewrite (errorHandler_unsent _ _ _ _ Hs Hpd Hvalid).
    + by destruct (errorHandler_invalid _ _ _ _ Hs Hpd Hvalid) as [e ->].
  - by rewrite (errorHandler_throws _ _ _ _ Hs Hpd).
Qed.

Lemma unsent_error_is_logged_not_forwarded_witness :
  let req := {| url := "/api/v1/recipes"; path := "/api/v1/recipes" |} in
  let w := {| res := fresh; console := []; forwarded := [] |} in
  console (errorHandler Null req w).2 = [[Str "Error:"; Null]] ∧
  forwarded (errorHandler Null req w).2 = [].
Proof.
  intros req w.
  apply (unsent_error_is_logged_not_forwarded Null req w). reflexivity.
Defined.

(** X3: on a response not yet sent, [undefined] and [null] make the
    handler throw a [TypeError] with the response untouched, and every
    other value that is no [AppError] is answered.  Whatever the error,
    the handler either completes, and then the response is finished with
    a body, or throws, and then no headers went out and no body was
    written. *)
Theorem handler_answers_or_throws err req w :
  headersSent (res w) = false →
  let r := errorHandler err req w in
  (err = Undefined ∨ err = Null →
     (∃ msg, r.1 = Throw (TypeError msg)) ∧ res r.2 = res w) ∧
  (err ≠ Undefined → err ≠ Null → instanceofAppError err = false →
     r.1 = Normal ()) ∧
  (r.1 = Normal () →
     headersSent (res r.2) = true ∧ ∃ b, body (res r.2) = Some b) ∧
  ((∃ e, r.1 = Throw e) →
     headersSent (res r.2) = false ∧ body (res r.2) = body (res w)).
Proof.
  intros Hs r. subst r. split; [|split; [|split]].
  - intros Hnull. destruct (problemDetailOf_nullish err req Hnull) as [msg Hpd].
    rewrite (errorHandler_throws _ _ _ _ Hs Hpd). eauto.
  - intros Hu Hn Happ.
    destruct (get_defined err "name" Hu Hn) as [name Hname].
    destruct (get_defined err "validation" Hu Hn) as [va Hva].
    destruct (get_defined err "details" Hu Hn) as [de Hde].
    destruct (get_defined err "code" Hu Hn) as [co Hco].
    destruct (strictEqStr name "ValidationError" || truthy va) eqn:Ev.
    + assert (name = Str "ValidationError" ∨ truthy va = true) as Hor.
      { apply orb_true_iff in Ev as [E|E];
          [left; by apply strictEqStr_true|by right]. }
      by rewrite (errorHandler_unsent _ _ _ _ Hs
                    (problemDetailOf_validation _ req _ _ _
                       Happ Hname Hva Hde Hor)
                    (validStatus_validation _ _)).
    + apply orb_false_iff in Ev as [En Et].
      assert (name ≠ Str "ValidationError") as Hne.
      { intros ->. discriminate En. }
      by rewrite (errorHandler_unsent _ _ _ _ Hs
                    (problemDetailOf_by_code _ req _ _ _
                       Happ Hname Hne Hva Et Hco)
                    (validStatus_by_code _ _)).
  - intros Hnormal.
    destruct (errorHandler_outcome err req w Hs)
      as [(_ & pd & _ & _ & ->)|[[e He] _]]; [eauto|congruence].
  - intros [e He].
    destruct (errorHandler_outcome err req w Hs)
      as [(Hnormal & _)|[_ ->]]; [congruence|by split].
Qed.

Lemma handler_answers_or_throws_witness :
  let req := {| url := "/api/v1/recipes"; path := "/api/v1/recipes" |} in
  let w := {| res := fresh; console := []; forwarded := [] |} in
  (∃ msg, (errorHandler Undefined req w).1 = Throw (TypeError msg)) ∧
  res (errorHandler Undefined req w).2 = fresh ∧
  (errorHandler (Str "boom") req w).1 = Normal ().
Proof.
  intros req w.
  destruct (handler_answers_or_throws Undefined req w eq_refl)
    as (Hnull & _).
  destruct (handler_answers_or_throws (Str "boom") req w eq_refl)
    as (_ & Hother & _).
  destruct Hnull as [Hthrow Hres]; [by left|].
  split; [exact Hthrow|]. split; [exact Hres|].
  apply Hother; first [discriminate | reflexivity].
Defined.

(** X4: an error that is no [AppError] is answered with one of four
    bodies: the validation problem with status 400, the duplicate problem
    with 409, the reference problem with 400 or the internal problem with
    500.  Besides the request URL only the [errors] member of the first
    holds anything taken from the error. *)
Theorem other_errors_get_one_of_four_bodies err req w :
  headersSent (res w) = false →
  err ≠ Undefined → err ≠ Null →
  instanceofAppError err = false →
  let r := errorHandler err req w in
  (∃ errors, statusCode (res r.2) = Num 400 ∧
             body (res r.2) = Some (validationProblem req errors)) ∨
  (statusCode (res r.2) = Num 409 ∧
   body (res r.2) = Some (duplicateProblem req)) ∨
  (statusCode (res r.2) = Num 400 ∧
   body (res r.2) = Some (referenceProblem req)) ∨
  (statusCode (res r.2) = Num 500 ∧
   body (res r.2) = Some (internalProblem req)).
Proof.
  intros Hs Hu Hn Happ r. subst r.
  destruct (get_defined err "name" Hu Hn) as [name Hname].
  destruct (get_defined err "validation" Hu Hn) as [va Hva].
  destruct (get_defined err "details" Hu Hn) as [de Hde].
  destruct (get_defined err "code" Hu Hn) as [co Hco].
  destruct (strictEqStr name "ValidationError" || truthy va) eqn:Ev.
  - left. exists (if truthy va then va else de).
    rewrite (errorHandler_unsent _ _ _ _ Hs
               (problemDetailOf_validation _ req _ _ _ Happ Hname Hva Hde
                  ltac:(apply orb_true_iff in Ev as [E|E];
                        [left; by apply strictEqStr_true|by right]))
               (validStatus_validation _ _)).
    by split.
  - right. apply orb_false_iff in Ev as [En Et].
    assert (name ≠ Str "ValidationError") as Hne.
    { intros ->. discriminate En. }
    rewrite (errorHandler_unsent _ _ _ _ Hs
               (problemDetailOf_by_code _ req _ _ _ Happ Hname Hne Hva Et Hco)
               (validStatus_by_code _ _)).
    destruct (strictEqStr co "23505"); [left; by split|]. right.
    destruct (strictEqStr co "23503"); [left; by split|right; by split].
Qed.

Lemma other_errors_get_one_of_four_bodies_witness :
  let req := {| url := "/api/v1/recipes/7/history";
                path := "/api/v1/recipes/7/history" |} in
  let w := {| res := fresh; console := []; forwarded := [] |} in
  let err := Obj ClsError {[ "name" := Str "error"; "code" := Str "23503";
                             "detail" := Str "Key (recipe_id)=(7) is not present." ]} in
  statusCode (res (errorHandler err req w).2) = Num 400 ∧
  body (res (errorHandler err req w).2) = Some (referenceProblem req).
Proof.
  intros req w err.
  destruct (other_errors_get_one_of_four_bodies err req w)
    as [(errors & Hst & Hb)|[[Hst Hb]|[[Hst Hb]|[Hst Hb]]]];
    try first [reflexivity | discriminate];
    try (split; [exact Hst|exact Hb]);
    vm_compute in Hst; discriminate Hst || (vm_compute in Hb; discriminate Hb).
Defined.

(** X5: the answer to an [AppError] is made of its [type], [title],
    [status], [detail] and [extra] alone: two instances that agree on
    these five leave the same response, whatever else ([name], [message],
    [stack], [code], [validation]) they carry. *)
Theorem app_error_answer_reads_five_members props1 props2 req w :
  (∀ k, k ∈ ["type"; "title"; "status"; "detail"; "extra"] →
        props1 !! k = props2 !! k) →
  res (errorHandler (Obj ClsAppError props1) req w).2 =
  res (errorHandler (Obj ClsAppError props2) req w).2.
Proof.
  intros Hagree. apply errorHandler_res_by_problemDetail.
  rewrite !problemDetailOf_app.
  rewrite (Hagree "type"), (Hagree "title"), (Hagree "status"),
          (Hagree "detail"), (Hagree "extra") by in_list.
  reflexivity.
Qed.

Lemma app_error_answer_reads_five_members_witness :
  let req := {| url := "/api/v1/recipes"; path := "/api/v1/recipes" |} in
  let w := {| res := fresh; console := []; forwarded := [] |} in
  let plain := ownEnumerable (AppError 409 "Conflict" "Key reused" None None) in
  let noisy := <["stack" := Str "at save (routes/recipes.ts:88)"]>
                 (<["code" := Str "23505"]>
                    (<["name" := Str "ValidationError"]> plain)) in
  res (errorHandler (Obj ClsAppError plain) req w).2 =
  res (errorHandler (Obj ClsAppError noisy) req w).2.
Proof.
  intros req w plain noisy.
  apply (app_error_answer_reads_five_members plain noisy req w).
  intros k Hk.
  repeat (apply elem_of_cons in Hk as [->|Hk]; [vm_compute; reflexivity|]).
  by apply elem_of_nil in Hk.
Defined.

(** X6: a response the middleware has written is not written again: once
    [errorHandler] has completed on a response not yet sent, or
    [notFoundHandler] has answered one, an error that reaches
    [errorHandler] afterwards is handed to [next], and the response and
    the console stay as the first answer left them. *)
Theorem answered_response_is_not_rewritten err1 err2 req1 req2 w :
  headersSent (res w) = false →
  let w1 := (errorHandler err1 req1 w).2 in
  let w2 := (notFoundHandler req1 w).2 in
  ((errorHandler err1 req1 w).1 = Normal () →
   errorHandler err2 req2 w1 =
     (Normal (), {| res := res w1; console := console w1;
                    forwarded := (forwarded w1 ++ [err2])%list |})) ∧
  (notFoundHandler req1 w).1 = Normal () ∧
  errorHandler err2 req2 w2 =
    (Normal (), {| res := res w2; console := console w2;
                   forwarded := (forwarded w2 ++ [err2])%list |}).
Proof.
  intros Hs w1 w2. split; [|split].
  - intros Hnormal. apply errorHandler_sent. subst w1.
    destruct (errorHandler_outcome err1 req1 w Hs)
      as [(_ & pd & _ & _ & ->)|[[e He] _]]; [reflexivity|congruence].
  - unfold notFoundHandler, res_status, res_json, modifyRes, mbind, M_bind,
      res_headersSent. simpl. by rewrite Hs.
  - apply errorHandler_sent. subst w2.
    unfold notFoundHandler, res_status, res_json, modifyRes, mbind, M_bind,
      res_headersSent. simpl. by rewrite Hs.
Qed.

Lemma answered_response_is_not_rewritten_witness :
  let req := {| url := "/api/v1/recipes"; path := "/api/v1/recipes" |} in
  let w := {| res := fresh; console := []; forwarded := [] |} in
  let first := Obj ClsError {[ "code" := Str "23505" ]} in
  let second := Str "write after end" in
  let w1 := (errorHandler first req w).2 in
  statusCode (res (errorHandler second req w1).2) = Num 409 ∧
  forwarded (errorHandler second req w1).2 = [second].
Proof.
  intros req w first second w1.
  destruct (answered_response_is_not_rewritten first second req req w eq_refl)
    as [H1 _].
  fold w1 in H1. rewrite (H1 eq_refl). split; reflexivity.
Defined.

(** X7: what an earlier handler had set on a response not yet sent (a
    status code, a media type, a body) is replaced: an error the handler
    answers on one such response it answers on any other, with the same
    response, whose media type is [application/problem+json]. *)
Theorem answer_ignores_earlier_response err req w1 w2 :
  headersSent (res w1) = false → headersSent (res w2) = false →
  (errorHandler err req w1).1 = Normal () →
  (errorHandler err req w2).1 = Normal () ∧
  res (errorHandler err req w1).2 = res (errorHandler err req w2).2 ∧
  contentType (res (errorHandler err req w1).2)
    = Some "application/problem+json".
Proof.
  intros Hs1 Hs2 Hnormal.
  destruct (errorHandler_outcome err req w1 Hs1)
    as [(_ & pd & Hpd & Hvalid & ->)|[[e He] _]]; [|congruence].
  by rewrite (errorHandler_unsent _ _ _ _ Hs2 Hpd Hvalid).
Qed.

Lemma answer_ignores_earlier_response_witness :
  let req := {| url := "/api/v1/recipes"; path := "/api/v1/recipes" |} in
  let stale := {| headersSent := false; statusCode := Num 201;
                  contentType := Some "text/html"; body := None |} in
  let w1 := {| res := stale; console := []; forwarded := [] |} in
  let w2 := {| res := fresh; console := []; forwarded := [] |} in
  let err := Str "boom" in
  res (errorHandler err req w1).2 = res (errorHandler err req w2).2 ∧
  contentType (res (errorHandler err req w1).2)
    = Some "application/problem+json".
Proof.
  intros req stale w1 w2 err.
  destruct (answer_ignores_earlier_response err req w1 w2)
    as (_ & Hres & Hct); try reflexivity.
  split; [exact Hres|exact Hct].
Defined.

(** X8: on a response not yet sent [notFoundHandler] answers 404 both as
    the status code and as the [status] member of the body, with a detail
    that names [req.path]; it logs nothing and hands nothing to [next].
    It has no guard of its own: on a response whose headers went out
    already [res.json] throws, no body is written and nothing is handed
    to [next], where [errorHandler] would delegate. *)
Theorem not_found_answer req w :
  let r := notFoundHandler req w in
  (headersSent (res w) = false →
     r.1 = Normal () ∧
     statusCode (res r.2) = Num 404 ∧
     (∃ b, body (res r.2) = Some b ∧
           get b "status" = Normal (statusCode (res r.2)) ∧
           jsonField b "detail"
             = Some (Str ("No resource found at " +:+ path req))) ∧
     console r.2 = console w ∧ forwarded r.2 = forwarded w) ∧
  (headersSent (res w) = true →
     (∃ e, r.1 = Throw e) ∧
     body (res r.2) = body (res w) ∧
     console r.2 = console w ∧ forwarded r.2 = forwarded w).
Proof.
  intros r. subst r.
  unfold notFoundHandler, res_status, res_json, throw, modifyRes, mbind,
    M_bind, res_headersSent. simpl.
  split; intros Hs; rewrite Hs; simpl.
  - split; [reflexivity|]. split; [reflexivity|].
    split; [|by split].
    eexists. split; [reflexivity|]. split; reflexivity.
  - split; [eauto|]. by repeat split.
Qed.

Lemma not_found_answer_witness :
  let req := {| url := "/api/v1/nowhere?x=1"; path := "/api/v1/nowhere" |} in
  let w := {| res := fresh; console := []; forwarded := [] |} in
  let sent := {| headersSent := true; statusCode := Num 200;
                 contentType := Some "application/json";
                 body := Some (Arr []) |} in
  let w' := {| res := sent; console := []; forwarded := [] |} in
  statusCode (res (notFoundHandler req w).2) = Num 404 ∧
  (∃ e, (notFoundHandler req w').1 = Throw e) ∧
  body (res (notFoundHandler req w').2) = Some (Arr []).
Proof.
  intros req w sent w'.
  destruct (not_found_answer req w) as [Hunsent _].
  destruct (not_found_answer req w') as [_ Hsent].
  destruct (Hunsent eq_refl) as (_ & Hst & _).
  destruct (Hsent eq_refl) as (He & Hb & _).
  split; [exact Hst|]. split; [exact He|exact Hb].
Defined.

End ErrorHandlerMore.
